(** * OAuth token manager (src/clients/token-manager.ts)

    A shallow embedding of [TokenManager]: the cache / store / refresh
    decision procedure of [getAccessToken], the refresh-and-persist
    sequence of [refreshToken], and the single-flight connection guard of
    [ensureConnected].

    Conventions.
    - Instants and durations are JavaScript numbers holding integral
      milliseconds (or seconds for [expires_in]); they are modelled in [Z].
    - A JavaScript value that is expected to be a string but may be
      [undefined] or [null] is an [option string]; [None] stands for both.
    - Everything outside the class (wall clock, dynamic import, driver,
      HTTP endpoint) is an [Oracle]: the n-th use of a facility yields the
      n-th answer.  The state counts the uses.
    - An [async] method is a computation in the monad [M]: it threads the
      state and either returns or throws.  State changes made before a
      throw are kept, as in JavaScript. *)

From Stdlib Require Import ZArith List String Bool Lia PeanoNat.
Import ListNotations.
Open Scope string_scope.
Open Scope Z_scope.

(** ** Data model *)

(** [interface TokenDocument]; only the fields the manager reads or writes. *)
Record TokenDocument := mkDoc {
  companyId : string;
  access_token : option string;
  refresh_token : option string;
  expires_in : option Z;          (* seconds *)
  updatedAt : option Z            (* Date, as unix ms *)
}.

(** [interface CachedToken]. *)
Record CachedToken := mkCached {
  accessToken : option string;
  refreshToken_ : option string;
  expiresAt : Z;                  (* unix ms *)
  fetchedAt : Z                   (* unix ms *)
}.

(** [resp.data] of a 2xx answer of the token endpoint. *)
Record RefreshResponse := mkResp {
  r_access_token : option string;
  r_refresh_token : option string;
  r_expires_in : option Z
}.

Definition TOKEN_CACHE_TTL_MS : Z := 20 * 60 * 1000.
Definition REFRESH_SKEW_MS : Z := 60000.
Definition DEFAULT_EXPIRES_IN : Z := 86400.

(** A client object made by [new MC(uri)]; the k-th one is [k]. *)
Definition Handle := nat.

(** The error kinds a caller can observe. *)
Inductive Error :=
| DriverMissing          (* 'mongodb package not installed' *)
| ConnectionError        (* connect() or a store read rejected *)
| NotFoundError          (* 'No token found for companyId=...' *)
| RefreshError           (* axios.post rejected *)
| PersistenceWriteError  (* updateOne rejected *)
| BodyTypeError.         (* line 156: [resp.data] is null or undefined *)

Inductive Result (A : Type) :=
| Ok (a : A)
| Throw (e : Error).
Arguments Ok {A} a.
Arguments Throw {A} e.

(** What the environment answers. *)
Record Oracle := mkOracle {
  clock : nat -> Z;                                   (* Date.now(), new Date() *)
  importOk : nat -> bool;                             (* import('mongodb') *)
  connectOk : nat -> bool;                            (* client.connect() *)
  findOk : nat -> bool;                               (* collection.findOne resolves *)
  updateOk : nat -> bool;                             (* collection.updateOne resolves *)
  post : nat -> option string -> option RefreshResponse; (* axios.post; None: rejected *)
  nullBody : nat -> option string -> bool
    (* where [post] is [None]: true when the request in fact came back 2xx
       with [resp.data] null or undefined, which is no [RefreshResponse] *)
}.

(** Instance fields, the module-level flag, the [tokens] collection, and
    the number of uses of each outside facility so far. *)
Record State := mkState {
  cache : option CachedToken;
  mongoClient : option Handle;
  mongoImported : bool;
  tokens : list TokenDocument;
  nClock : nat;
  nImport : nat;
  nConnect : nat;
  nFind : nat;
  nUpdate : nat;
  nPost : nat
}.

Definition set_cache (c : option CachedToken) (s : State) : State :=
  mkState c (mongoClient s) (mongoImported s) (tokens s)
          (nClock s) (nImport s) (nConnect s) (nFind s) (nUpdate s) (nPost s).
Definition set_mongoClient (h : option Handle) (s : State) : State :=
  mkState (cache s) h (mongoImported s) (tokens s)
          (nClock s) (nImport s) (nConnect s) (nFind s) (nUpdate s) (nPost s).
Definition set_mongoImported (b : bool) (s : State) : State :=
  mkState (cache s) (mongoClient s) b (tokens s)
          (nClock s) (nImport s) (nConnect s) (nFind s) (nUpdate s) (nPost s).
Definition set_tokens (l : list TokenDocument) (s : State) : State :=
  mkState (cache s) (mongoClient s) (mongoImported s) l
          (nClock s) (nImport s) (nConnect s) (nFind s) (nUpdate s) (nPost s).
Definition tick_clock (s : State) : State :=
  mkState (cache s) (mongoClient s) (mongoImported s) (tokens s)
          (S (nClock s)) (nImport s) (nConnect s) (nFind s) (nUpdate s) (nPost s).
Definition tick_import (s : State) : State :=
  mkState (cache s) (mongoClient s) (mongoImported s) (tokens s)
          (nClock s) (S (nImport s)) (nConnect s) (nFind s) (nUpdate s) (nPost s).
Definition tick_connect (s : State) : State :=
  mkState (cache s) (mongoClient s) (mongoImported s) (tokens s)
          (nClock s) (nImport s) (S (nConnect s)) (nFind s) (nUpdate s) (nPost s).
Definition tick_find (s : State) : State :=
  mkState (cache s) (mongoClient s) (mongoImported s) (tokens s)
          (nClock s) (nImport s) (nConnect s) (S (nFind s)) (nUpdate s) (nPost s).
Definition tick_update (s : State) : State :=
  mkState (cache s) (mongoClient s) (mongoImported s) (tokens s)
          (nClock s) (nImport s) (nConnect s) (nFind s) (S (nUpdate s)) (nPost s).
Definition tick_post (s : State) : State :=
  mkState (cache s) (mongoClient s) (mongoImported s) (tokens s)
          (nClock s) (nImport s) (nConnect s) (nFind s) (nUpdate s) (S (nPost s)).

(** ** The monad of [async] methods *)

Definition M (A : Type) : Type := State -> Result A * State.

Definition ret {A} (a : A) : M A := fun s => (Ok a, s).
Definition throw {A} (e : Error) : M A := fun s => (Throw e, s).
Definition bind {A B} (m : M A) (k : A -> M B) : M B :=
  fun s => match m s with
           | (Ok a, s') => k a s'
           | (Throw e, s') => (Throw e, s')
           end.
(** [try { m } catch (err) { h err }]. *)
Definition try_catch {A} (m : M A) (h : Error -> M A) : M A :=
  fun s => match m s with
           | (Ok a, s') => (Ok a, s')
           | (Throw e, s') => h e s'
           end.
Definition gets {A} (f : State -> A) : M A := fun s => (Ok (f s), s).
Definition modify (f : State -> State) : M unit := fun s => (Ok tt, f s).

Declare Scope js_scope.
Delimit Scope js_scope with js.
Notation "x <- m ;; k" := (bind m (fun x => k))
  (at level 61, m at next level, right associativity) : js_scope.
Notation "m ;;; k" := (bind m (fun _ => k))
  (at level 61, right associativity) : js_scope.

(** ** JavaScript truthiness, as [||] uses it *)

(** A string operand of [||] is taken unless it is missing or empty. *)
Definition truthy_str (v : option string) : bool :=
  match v with
  | Some s => negb (String.eqb s "")
  | None => false
  end.

(** A number operand of [||] is taken unless it is missing or zero. *)
Definition truthy_num (v : option Z) : bool :=
  match v with
  | Some n => negb (n =? 0)
  | None => false
  end.

(** [expires_in || 86400] (lines 125, 162, 176). *)
Definition lifetime (e : option Z) : Z :=
  match e with
  | Some n => if truthy_num e then n else DEFAULT_EXPIRES_IN
  | None => DEFAULT_EXPIRES_IN
  end.

(** [refresh_token || refreshToken] (lines 161, 175). *)
Definition or_str (a b : option string) : option string :=
  if truthy_str a then a else b.

(** ** The expiry tests *)

(** Line 75: [Date.now() - this.cache.fetchedAt < TOKEN_CACHE_TTL_MS]. *)
Definition isFresh (now : Z) (c : CachedToken) : bool :=
  now - fetchedAt c <? TOKEN_CACHE_TTL_MS.

(** Line 77, the guard under which the cached token is returned:
    [Date.now() < this.cache.expiresAt - 60_000]. *)
Definition cacheTokenValid (now E : Z) : bool := now <? E - REFRESH_SKEW_MS.

(** The cache path refreshes exactly when the guard of line 77 fails. *)
Definition cacheNeedsRefresh (now E : Z) : bool := negb (cacheTokenValid now E).

(** Line 128, the guard under which the stored token is refreshed:
    [Date.now() > expiresAt - 60_000]. *)
Definition dbNeedsRefresh (now E : Z) : bool := now >? E - REFRESH_SKEW_MS.

(** ** The [tokens] collection *)

Definition matches (cid : string) (d : TokenDocument) : bool :=
  String.eqb (companyId d) cid.

(** [collection.findOne({companyId})]: the first matching document. *)
Definition findOne (cid : string) (l : list TokenDocument) : option TokenDocument :=
  List.find (matches cid) l.

(** The [$set] of lines 173-178 applied to one document. *)
Definition applySet (at_ rt : option string) (e : Z) (u : Z) (d : TokenDocument)
  : TokenDocument :=
  mkDoc (companyId d) at_ rt (Some e) (Some u).

(** [collection.updateOne({companyId}, {$set: ...})] with no options: the
    first matching document is modified; with no match nothing is written
    (the driver's [upsert] option defaults to false). *)
Fixpoint updateOne (cid : string) (f : TokenDocument -> TokenDocument)
         (l : list TokenDocument) : list TokenDocument :=
  match l with
  | [] => []
  | d :: l' => if matches cid d then f d :: l' else d :: updateOne cid f l'
  end.

(** ** The methods, one call at a time *)

Section Manager.

Variable o : Oracle.
(** [this.companyId]. *)
Variable thisCompanyId : string.

Local Open Scope js_scope.

(** [Date.now()] and [new Date()]. *)
Definition dateNow : M Z :=
  fun s => (Ok (clock o (nClock s)), tick_clock s).

(** [getMongoClient] (lines 13-24); the constructor it returns carries no
    information, so the result is [unit]. *)
Definition getMongoClient : M unit :=
  fun s =>
    if mongoImported s then (Ok tt, s)
    else if importOk o (nImport s)
         then (Ok tt, set_mongoImported true (tick_import s))
         else (Throw DriverMissing, tick_import s).

(** Line 98: [this.mongoClient = new MC(this.mongoUri)]. *)
Definition newClient : M unit :=
  fun s => (Ok tt, set_mongoClient (Some (nConnect s)) s).

(** Line 99: [await this.mongoClient.connect()]. *)
Definition connect : M unit :=
  fun s => if connectOk o (nConnect s)
           then (Ok tt, tick_connect s)
           else (Throw ConnectionError, tick_connect s).

(** [ensureConnected] (lines 92-109) when no other call is in flight:
    [this.connecting] is then null on entry, is set on line 96 and is reset
    on line 107 before the call returns, so it is not part of [State].
    The machine with overlapping calls is [SingleFlight] below. *)
Definition ensureConnected : M (option Handle) :=
  mc <- gets mongoClient ;;
  match mc with
  | Some h => ret (Some h)
  | None =>
      getMongoClient ;;;
      newClient ;;;
      connect ;;;
      gets mongoClient
  end.

(** Line 116: [await collection.findOne({companyId: this.companyId})]. *)
Definition dbFindOne : M (option TokenDocument) :=
  fun s => if findOk o (nFind s)
           then (Ok (findOne thisCompanyId (tokens s)), tick_find s)
           else (Throw ConnectionError, tick_find s).

(** Line 170: [await db.collection('tokens').updateOne(...)]. *)
Definition dbUpdateOne (f : TokenDocument -> TokenDocument) : M unit :=
  fun s => if updateOk o (nUpdate s)
           then (Ok tt, tick_update (set_tokens (updateOne thisCompanyId f (tokens s)) s))
           else (Throw PersistenceWriteError, tick_update s).

(** Line 147: [await axios.post(TOKEN_REFRESH_URL, ...)]; the result is
    [resp.data], [None] when it is null or undefined. *)
Definition httpPost (rt : option string) : M (option RefreshResponse) :=
  fun s => match post o (nPost s) rt with
           | Some r => (Ok (Some r), tick_post s)
           | None => if nullBody o (nPost s) rt
                     then (Ok None, tick_post s)
                     else (Throw RefreshError, tick_post s)
           end.

(** Line 156: [const { access_token, refresh_token, expires_in } = resp.data]
    throws a TypeError when [resp.data] is null or undefined; any other
    body yields the three fields, missing ones undefined. *)
Definition destructure (data : option RefreshResponse) : M RefreshResponse :=
  match data with
  | Some r => ret r
  | None => throw BodyTypeError
  end.

(** The body of the [try] of lines 167-181. *)
Definition writeThrough (r : RefreshResponse) (rt : option string) : M unit :=
  ensureConnected ;;;
  u <- dateNow ;;
  dbUpdateOne (applySet (r_access_token r)
                        (or_str (r_refresh_token r) rt)
                        (lifetime (r_expires_in r)) u).

(** The cache entry of lines 159-164. *)
Definition refreshedEntry (r : RefreshResponse) (rt : option string) (now : Z)
  : CachedToken :=
  mkCached (r_access_token r)
           (or_str (r_refresh_token r) rt)
           (now + lifetime (r_expires_in r) * 1000)
           now.

(** [refreshToken] from line 156 on, with [resp.data = r]. *)
Definition refreshWith (r : RefreshResponse) (rt : option string)
  : M (option string) :=
  now <- dateNow ;;
  modify (set_cache (Some (refreshedEntry r rt now))) ;;;
  try_catch (writeThrough r rt) (fun _ => ret tt) ;;;
  ret (r_access_token r).

(** [refreshToken] (lines 144-187). *)
Definition refreshToken (rt : option string) : M (option string) :=
  data <- httpPost rt ;;
  r <- destructure data ;;
  refreshWith r rt.

(** Line 125. *)
Definition docExpiresAt (d : TokenDocument) (upd : Z) : Z :=
  upd + lifetime (expires_in d) * 1000.

(** [readTokenFromDb] from line 124 on, with the document found. *)
Definition loadDoc (d : TokenDocument) : M (option string) :=
  upd <- match updatedAt d with
         | Some u => ret u
         | None => dateNow
         end ;;
  now <- dateNow ;;
  if dbNeedsRefresh now (docExpiresAt d upd)
  then refreshToken (refresh_token d)
  else
    f <- dateNow ;;
    modify (set_cache (Some (mkCached (access_token d) (refresh_token d)
                                      (docExpiresAt d upd) f))) ;;;
    dateNow ;;;                       (* the diagnostic of line 140 *)
    ret (access_token d).

(** [readTokenFromDb] (lines 111-142). *)
Definition readTokenFromDb : M (option string) :=
  ensureConnected ;;;
  doc <- dbFindOne ;;
  match doc with
  | None => throw NotFoundError
  | Some d => loadDoc d
  end.

(** The [if] of lines 75-86: [Some tok] when it returns [tok], [None]
    when control reaches line 89. *)
Definition cachePath : M (option (option string)) :=
  c <- gets cache ;;
  match c with
  | None => ret None
  | Some c =>
      t1 <- dateNow ;;
      if isFresh t1 c then
        t2 <- dateNow ;;
        if cacheTokenValid t2 (expiresAt c)
        then ret (Some (accessToken c))
        else try_catch (tok <- refreshToken (refreshToken_ c) ;; ret (Some tok))
                       (fun _ => ret None)
      else ret None
  end.

(** [getAccessToken] (lines 73-90). *)
Definition getAccessToken : M (option string) :=
  r <- cachePath ;;
  match r with
  | Some tok => ret tok
  | None => readTokenFromDb
  end.

End Manager.

(** ** [ensureConnected] with overlapping calls

    JavaScript runs one call until its next [await]; other calls run in
    between.  The machine below has one transition per such segment of
    [ensureConnected] and of the function it starts on line 96.  Any
    interleaving of calls and completions is a list of events. *)

Module SingleFlight.

Inductive Settled :=
| Fulfilled (v : option Handle)
| Rejected (e : Error).

(** The promise made on line 96. *)
Inductive Promise :=
| AwaitImport (imp : bool)   (* at line 97; [imp]: a dynamic import is running *)
| AwaitConnect               (* at line 99 *)
| Done (r : Settled).

(** A call of [ensureConnected]. *)
Inductive Caller :=
| Returned (h : Handle)      (* returned on line 93 *)
| Following (p : nat)        (* returned the promise [p] on line 94 *)
| Owner (p : nat)            (* made [p], suspended on line 105 *)
| Resumed (r : Settled).     (* past the [finally] of line 107 *)

Record Conn := mkConn {
  mongoClient : option Handle;   (* this.mongoClient *)
  connecting : option nat;       (* this.connecting *)
  mongoImported : bool;          (* the module-level flag *)
  promises : list Promise;
  callers : list Caller;
  connects : nat                 (* connect() calls issued so far *)
}.

Inductive Event :=
| EvCall                         (* a caller enters ensureConnected *)
| EvImport (p : nat) (ok : bool) (* [await getMongoClient()] of [p] completes *)
| EvConnect (p : nat) (ok : bool)(* [await this.mongoClient.connect()] of [p] completes *)
| EvResume (c : nat).            (* [await this.connecting] of caller [c] completes *)

(** [l] with position [i] replaced by [x]. *)
Fixpoint upd {A} (i : nat) (x : A) (l : list A) : list A :=
  match l, i with
  | [], _ => []
  | _ :: l', O => x :: l'
  | y :: l', S i' => y :: upd i' x l'
  end.

Definition add_caller (c : Caller) (s : Conn) : Conn :=
  mkConn (mongoClient s) (connecting s) (mongoImported s)
         (promises s) (callers s ++ [c]) (connects s).

Definition set_promise (p : nat) (x : Promise) (s : Conn) : Conn :=
  mkConn (mongoClient s) (connecting s) (mongoImported s)
         (upd p x (promises s)) (callers s) (connects s).

(** Lines 93-105, up to the first suspension. *)
Definition call (s : Conn) : Conn :=
  match mongoClient s with
  | Some h => add_caller (Returned h) s
  | None =>
      match connecting s with
      | Some p => add_caller (Following p) s
      | None =>
          let p := List.length (promises s) in
          mkConn None (Some p) (mongoImported s)
                 (promises s ++ [AwaitImport (negb (mongoImported s))])
                 (callers s ++ [Owner p]) (connects s)
      end
  end.

(** Lines 97-99, from the completion of [getMongoClient] to the next
    suspension: the client is stored in [this.mongoClient] before
    [connect()] is awaited. *)
Definition importDone (p : nat) (ok : bool) (s : Conn) : Conn :=
  match nth_error (promises s) p with
  | Some (AwaitImport imp) =>
      if imp && negb ok
      then set_promise p (Done (Rejected DriverMissing)) s
      else mkConn (Some (connects s)) (connecting s) true
                  (upd p AwaitConnect (promises s)) (callers s) (S (connects s))
  | _ => s
  end.

(** Lines 99-101, from the completion of [connect()] to the [return]. *)
Definition connectDone (p : nat) (ok : bool) (s : Conn) : Conn :=
  match nth_error (promises s) p with
  | Some AwaitConnect =>
      if ok
      then set_promise p (Done (Fulfilled (mongoClient s))) s
      else set_promise p (Done (Rejected ConnectionError)) s
  | _ => s
  end.

(** Lines 105-108: the owner resumes, [finally] clears the marker. *)
Definition resume (c : nat) (s : Conn) : Conn :=
  match nth_error (callers s) c with
  | Some (Owner p) =>
      match nth_error (promises s) p with
      | Some (Done r) =>
          mkConn (mongoClient s) None (mongoImported s)
                 (promises s) (upd c (Resumed r) (callers s)) (connects s)
      | _ => s
      end
  | _ => s
  end.

(** An event that is not enabled leaves the state as it is. *)
Definition step (s : Conn) (ev : Event) : Conn :=
  match ev with
  | EvCall => call s
  | EvImport p ok => importDone p ok s
  | EvConnect p ok => connectDone p ok s
  | EvResume c => resume c s
  end.

Definition run (tr : list Event) (s : Conn) : Conn := fold_left step tr s.

(** A manager just constructed: no client, nothing in flight. *)
Definition init (imported : bool) : Conn :=
  mkConn None None imported [] [] 0.

(** What the promise returned to caller [c] has settled to, if it has. *)
Definition outcome (s : Conn) (c : nat) : option Settled :=
  match nth_error (callers s) c with
  | Some (Returned h) => Some (Fulfilled (Some h))
  | Some (Following p) =>
      match nth_error (promises s) p with
      | Some (Done r) => Some r
      | _ => None
      end
  | Some (Resumed r) => Some r
  | _ => None
  end.

(** No completion in the trace is a failure. *)
Definition ev_ok (ev : Event) : bool :=
  match ev with
  | EvImport _ ok | EvConnect _ ok => ok
  | _ => true
  end.

Definition pending (x : Promise) : bool :=
  match x with Done _ => false | _ => true end.

Definition suspended (c : Caller) : bool :=
  match c with Owner _ => true | _ => false end.

(** Nothing is left to complete. *)
Definition quiescent (s : Conn) : bool :=
  forallb (fun x => negb (pending x)) (promises s)
  && forallb (fun c => negb (suspended c)) (callers s).

(** What a call made on its own leaves in its promise. *)
Definition settled_of (r : Result (option Handle)) : Settled :=
  match r with
  | Ok v => Fulfilled v
  | Throw e => Rejected e
  end.

(** The part of the machine state the one-call-at-a-time model keeps. *)
Definition view (s : Conn) : option Handle * bool * nat :=
  (mongoClient s, mongoImported s, connects s).

(** What every reachable state satisfies.  Handle 0 is the only client
    ever made; a pending promise is the one [this.connecting] holds; a
    suspended owner is the only one, and owns it. *)
Record Inv (s : Conn) : Prop := mkInv {
  inv_connects : (connects s <= 1)%nat;
  inv_client : mongoClient s = if (connects s =? 0)%nat then None else Some 0%nat;
  inv_fulfilled : forall p v,
      nth_error (promises s) p = Some (Done (Fulfilled v)) ->
      v = Some 0%nat /\ connects s = 1%nat;
  inv_pending : forall p x,
      nth_error (promises s) p = Some x -> pending x = true ->
      connecting s = Some p;
  inv_import : forall p imp,
      nth_error (promises s) p = Some (AwaitImport imp) -> connects s = 0%nat;
  inv_connect : forall p,
      nth_error (promises s) p = Some AwaitConnect -> connects s = 1%nat;
  inv_owner : forall c p,
      nth_error (callers s) c = Some (Owner p) -> connecting s = Some p;
  inv_owner_unique : forall c c' p p',
      nth_error (callers s) c = Some (Owner p) ->
      nth_error (callers s) c' = Some (Owner p') -> c = c';
  inv_returned : forall c h,
      nth_error (callers s) c = Some (Returned h) ->
      h = 0%nat /\ connects s = 1%nat;
  inv_resumed : forall c v,
      nth_error (callers s) c = Some (Resumed (Fulfilled v)) ->
      v = Some 0%nat /\ connects s = 1%nat;
  inv_marker : forall p, connecting s = Some p -> (p < List.length (promises s))%nat;
  inv_following : forall c p,
      nth_error (callers s) c = Some (Following p) ->
      (p < List.length (promises s))%nat
}.

(** No attempt has been rejected. *)
Record NoReject (s : Conn) : Prop := mkNoReject {
  nr_promise : forall p e, nth_error (promises s) p <> Some (Done (Rejected e));
  nr_caller : forall c e, nth_error (callers s) c <> Some (Resumed (Rejected e))
}.

End SingleFlight.

(** ** Vocabulary of the statements *)

(** [ensureConnected] returns rather than throws in state [s]: a client is
    already stored, or the driver loads and [connect()] resolves. *)
Definition canConnect (o : Oracle) (s : State) : bool :=
  match mongoClient s with
  | Some _ => true
  | None => (mongoImported s || importOk o (nImport s)) && connectOk o (nConnect s)
  end.

(** The condition of line 75 fails: no cache entry, or one older than the TTL. *)
Definition cacheMiss (o : Oracle) (s : State) : bool :=
  match cache s with
  | None => true
  | Some c => negb (isFresh (clock o (nClock s)) c)
  end.

(** The value [loadDoc] takes for [updatedAt] on line 124 when the clock has
    been read [n] times. *)
Definition loadUpd (o : Oracle) (n : nat) (d : TokenDocument) : Z :=
  match updatedAt d with
  | Some u => u
  | None => clock o n
  end.

(** The instant [loadDoc] compares on line 128 when the clock has been read
    [n] times: the read of line 124, if any, comes first. *)
Definition loadNow (o : Oracle) (n : nat) (d : TokenDocument) : Z :=
  match updatedAt d with
  | Some _ => clock o n
  | None => clock o (S n)
  end.

(** The state in which [loadDoc] reaches line 128's branch: the clock has
    been read once more, or twice when [updatedAt] is missing. *)
Definition loadState (d : TokenDocument) (s : State) : State :=
  match updatedAt d with
  | Some _ => tick_clock s
  | None => tick_clock (tick_clock s)
  end.

(** The stored record [d] is near or past its expiry as [loadDoc] sees it
    when the clock has been read [n] times. *)
Definition dbExpired (o : Oracle) (n : nat) (d : TokenDocument) : bool :=
  dbNeedsRefresh (loadNow o n d) (docExpiresAt d (loadUpd o n d)).



Definition with_expires_in (e : option Z) (d : TokenDocument) : TokenDocument :=
  mkDoc (companyId d) (access_token d) (refresh_token d) e (updatedAt d).

Definition with_r_expires_in (e : option Z) (r : RefreshResponse) : RefreshResponse :=
  mkResp (r_access_token r) (r_refresh_token r) e.

(** [s'] differs from [s] at most in what [ensureConnected] touches: the
    stored client, the import flag and the import and connect counters. *)
Definition connFrame (s s' : State) : Prop :=
  cache s' = cache s /\ tokens s' = tokens s /\ nClock s' = nClock s /\
  nFind s' = nFind s /\ nUpdate s' = nUpdate s /\ nPost s' = nPost s.

(** The access token a cache holds, if it holds an entry. *)
Definition accessToken_of (c : option CachedToken) : option (option string) :=
  match c with
  | Some e => Some (accessToken e)
  | None => None
  end.

(** The document update made by the [$set] of lines 173-178 at instant [u]. *)
Definition written (r : RefreshResponse) (rt : option string) (u : Z)
  : TokenDocument -> TokenDocument :=
  applySet (r_access_token r) (or_str (r_refresh_token r) rt)
           (lifetime (r_expires_in r)) u.


(** The connection fields of the state, as the machine [SingleFlight] has them. *)
Definition connView (q : State) : option Handle * bool * nat :=
  (mongoClient q, mongoImported q, nConnect q).

(** What [refreshToken] throws when the [n]-th POST, sent with [rt], yields
    no [RefreshResponse]: the rejection of line 147, or the TypeError of
    line 156 on a null body. *)
Definition refreshFailure (o : Oracle) (n : nat) (rt : option string) : Error :=
  if nullBody o n rt then BodyTypeError else RefreshError.

(** ** Sample environments *)

Module Sample.

(** Every facility works; the clock stands at [t]; the endpoint answers [r]. *)
Definition oracle (t : Z) (r : option RefreshResponse) : Oracle :=
  mkOracle (fun _ => t) (fun _ => true) (fun _ => true)
           (fun _ => true) (fun _ => true) (fun _ _ => r) (fun _ _ => false).

(** As [oracle], but [connect()] and [updateOne] reject. *)
Definition oracle_store_down (t : Z) (r : option RefreshResponse) : Oracle :=
  mkOracle (fun _ => t) (fun _ => true) (fun _ => false)
           (fun _ => true) (fun _ => false) (fun _ _ => r) (fun _ _ => false).


(** A manager just constructed, over the collection [l]. *)
Definition fresh (l : list TokenDocument) : State :=
  mkState None None false l 0 0 0 0 0 0.

(** As [fresh], with the cache holding [c]. *)
Definition cached (c : CachedToken) (l : list TokenDocument) : State :=
  mkState (Some c) None false l 0 0 0 0 0 0.

Definition acct : string := "X".

(** Written at instant 0 with a lifetime of 100 s: expires at 100000 ms. *)
Definition doc100 : TokenDocument :=
  mkDoc acct (Some "tok") (Some "rt") (Some 100) (Some 0).


(** A record without [updatedAt]. *)
Definition docNoStamp : TokenDocument :=
  mkDoc acct (Some "old") (Some "rt") (Some 3600) None.

Definition respNew : RefreshResponse :=
  mkResp (Some "new") (Some "rt2") (Some 3600).


(** A 2xx answer with [expires_in: 0]. *)
Definition respZero : RefreshResponse :=
  mkResp (Some "new") None (Some 0).

(** Fetched at 0, expires at 100000 ms. *)
Definition entry100 : CachedToken :=
  mkCached (Some "tok") (Some "rt") 100000 0.

End Sample.

(** ** [close], the constructor and the factory *)

(** Line 191: [await this.mongoClient.close()], which settles to [r]. *)
Definition driverClose (r : Result unit) : M unit := fun s => (r, s).

(** [close] (lines 189-194).  The driver's answer [r] is a parameter: when
    it is a rejection the assignment of line 192 is not reached. *)
Definition close (r : Result unit) : M unit :=
  bind (gets mongoClient) (fun mc =>
  match mc with
  | Some _ => bind (driverClose r) (fun _ => modify (set_mongoClient None))
  | None => ret tt
  end).

(** The instance fields right after [new TokenManager(opts)] (lines 54-56),
    in a process whose module-level flag, store and history are those of
    [w]: no cache entry, no client. *)
Definition construct (w : State) : State :=
  set_cache None (set_mongoClient None w).

Module Factory.

(** The environment variables the factory reads; [None] is an unset one. *)
Record Env := mkEnv {
  MONGO_URI : option string;
  GHL_APP_CLIENT_ID : option string;
  GHL_APP_CLIENT_SECRET : option string;
  GHL_COMPANY_ID : option string
}.

(** The argument of the constructor (lines 58-63). *)
Record Opts := mkOpts {
  mongoUri : string;
  companyId : string;
  clientId : string;
  clientSecret : string
}.

Definition DEFAULT_COMPANY_ID : string := "8igXD6XA1bRExj2oUicW".

(** The string a truthy variable holds. *)
Definition str_of (v : option string) : string :=
  match v with
  | Some x => x
  | None => ""
  end.

(** [createTokenManagerIfConfigured] (lines 200-216); [None] is [null]. *)
Definition createTokenManagerIfConfigured (env : Env) : option Opts :=
  if negb (truthy_str (MONGO_URI env))
     || negb (truthy_str (GHL_APP_CLIENT_ID env))
     || negb (truthy_str (GHL_APP_CLIENT_SECRET env))
  then None
  else Some (mkOpts (str_of (MONGO_URI env))
                    (str_of (or_str (GHL_COMPANY_ID env) (Some DEFAULT_COMPANY_ID)))
                    (str_of (GHL_APP_CLIENT_ID env))
                    (str_of (GHL_APP_CLIENT_SECRET env))).

End Factory.

(** ** [ensureConnected] and [close] with overlapping calls *)

Module Closing.
Import SingleFlight.

(** The machine of [SingleFlight], and the [close] calls suspended on
    line 191. *)
Record CConn := mkCConn {
  conn : Conn;
  closing : nat
}.

Inductive CEvent :=
| Ev (e : Event)               (* a segment of ensureConnected *)
| EvCloseCall                  (* a caller enters close *)
| EvCloseDone (ok : bool).     (* [await this.mongoClient.close()] completes *)

(** Line 192: [this.mongoClient = null]. *)
Definition clear_client (s : Conn) : Conn :=
  mkConn None (connecting s) (mongoImported s)
         (promises s) (callers s) (connects s).

(** Lines 190-191: with a client stored the call suspends on the driver's
    [close()]; with none it returns. *)
Definition closeCall (s : CConn) : CConn :=
  match mongoClient (conn s) with
  | Some _ => mkCConn (conn s) (S (closing s))
  | None => s
  end.

(** Lines 191-193: a suspended [close] resumes; a rejection skips line 192. *)
Definition closeDone (ok : bool) (s : CConn) : CConn :=
  match closing s with
  | O => s
  | S k => if ok then mkCConn (clear_client (conn s)) k else mkCConn (conn s) k
  end.

Definition cstep (s : CConn) (ev : CEvent) : CConn :=
  match ev with
  | Ev e => mkCConn (step (conn s) e) (closing s)
  | EvCloseCall => closeCall s
  | EvCloseDone ok => closeDone ok s
  end.

Definition crun (tr : list CEvent) (s : CConn) : CConn := fold_left cstep tr s.

Definition cinit (imported : bool) : CConn := mkCConn (init imported) 0.

End Closing.

(** * Properties *)

Ltac js_unfold :=
  unfold getAccessToken, cachePath, readTokenFromDb, loadDoc, refreshToken,
         refreshWith, writeThrough, httpPost, destructure, dbUpdateOne, dbFindOne,
         ensureConnected, connect, newClient, getMongoClient, dateNow,
         bind, ret, throw, gets, modify, try_catch.

#[global] Arguments isFresh : simpl never.
#[global] Arguments cacheTokenValid : simpl never.
#[global] Arguments dbNeedsRefresh : simpl never.
#[global] Arguments lifetime : simpl never.
#[global] Arguments docExpiresAt : simpl never.

(** ** The expiry tests *)

Lemma isFresh_iff (now : Z) (c : CachedToken) :
  isFresh now c = true <-> now - fetchedAt c < 20 * 60 * 1000.
Proof. unfold isFresh, TOKEN_CACHE_TTL_MS. apply Z.ltb_lt. Qed.

Lemma cacheNeedsRefresh_iff (now E : Z) :
  cacheNeedsRefresh now E = true <-> now >= E - 60000.
Proof.
  unfold cacheNeedsRefresh, cacheTokenValid, REFRESH_SKEW_MS.
  rewrite negb_true_iff, Z.ltb_ge. lia.
Qed.

Lemma dbNeedsRefresh_iff (now E : Z) :
  dbNeedsRefresh now E = true <-> now > E - 60000.
Proof.
  unfold dbNeedsRefresh, REFRESH_SKEW_MS.
  rewrite Z.gtb_ltb, Z.ltb_lt. lia.
Qed.

Lemma dbNeedsRefresh_false_iff (now E : Z) :
  dbNeedsRefresh now E = false <-> now <= E - 60000.
Proof.
  unfold dbNeedsRefresh, REFRESH_SKEW_MS.
  rewrite Z.gtb_ltb, Z.ltb_ge. lia.
Qed.

(** Away from the boundary the two tests agree. *)
Lemma needsRefresh_agree_off_boundary (now E : Z) :
  now <> E - 60000 -> dbNeedsRefresh now E = cacheNeedsRefresh now E.
Proof.
  intros Hne.
  destruct (dbNeedsRefresh now E) eqn:Hd, (cacheNeedsRefresh now E) eqn:Hc;
    try reflexivity; exfalso.
  - apply dbNeedsRefresh_iff in Hd.
    assert (Hc' : ~ now >= E - 60000)
      by (rewrite <- cacheNeedsRefresh_iff; congruence).
    lia.
  - apply cacheNeedsRefresh_iff in Hc. apply dbNeedsRefresh_false_iff in Hd. lia.
Qed.

(** C1. The claim asks for one inclusive test, [now >= E - 60s], on both
    paths.  The cache path (line 77) has it; the store path (line 128)
    compares with [>], so at [now = E - 60s] it does not refresh.  With a
    record expiring at 100000 ms read at 40000 ms, [getAccessToken] returns
    the stored token without any POST and caches it; a second call at the
    same instant takes the cache path and refreshes that very token. *)
Theorem store_path_boundary_is_exclusive :
  (forall now E, cacheNeedsRefresh now E = true <-> now >= E - 60000) /\
  (forall now E, dbNeedsRefresh now E = true <-> now > E - 60000) /\
  (forall E, cacheNeedsRefresh (E - 60000) E = true /\
             dbNeedsRefresh (E - 60000) E = false) /\
  (let o := Sample.oracle 40000 (Some Sample.respNew) in
   let first := getAccessToken o Sample.acct (Sample.fresh [Sample.doc100]) in
   let second := getAccessToken o Sample.acct (snd first) in
   fst first = Ok (Some "tok") /\ nPost (snd first) = 0%nat /\
   fst second = Ok (Some "new") /\ nPost (snd second) = 1%nat).
Proof.
  split; [exact cacheNeedsRefresh_iff|].
  split; [exact dbNeedsRefresh_iff|].
  split.
  - intros E. split.
    + apply cacheNeedsRefresh_iff. lia.
    + apply dbNeedsRefresh_false_iff. lia.
  - vm_compute. repeat split.
Qed.

(** ** Truthiness and the default lifetime *)

Lemma lifetime_falsy (e : option Z) :
  truthy_num e = false -> lifetime e = 86400.
Proof.
  unfold lifetime. destruct e as [n|]; [|reflexivity].
  intros ->. reflexivity.
Qed.

Lemma lifetime_truthy (n : Z) : n <> 0 -> lifetime (Some n) = n.
Proof.
  intros Hn. unfold lifetime, truthy_num.
  destruct (Z.eqb_spec n 0) as [->|_]; [contradiction|reflexivity].
Qed.

Lemma lifetime_nonzero (e : option Z) : lifetime e <> 0.
Proof.
  unfold lifetime, truthy_num, DEFAULT_EXPIRES_IN.
  destruct e as [n|]; [|discriminate].
  destruct (Z.eqb_spec n 0); simpl; [discriminate|assumption].
Qed.

Lemma lifetime_with_None (e : option Z) :
  truthy_num e = false -> lifetime e = lifetime None.
Proof. intros H. rewrite (lifetime_falsy _ H). reflexivity. Qed.

(** ** The collection *)

Lemma findOne_matches (cid : string) (l : list TokenDocument) (d : TokenDocument) :
  findOne cid l = Some d -> companyId d = cid.
Proof.
  unfold findOne. intros H. apply find_some in H. destruct H as [_ H].
  unfold matches in H. apply String.eqb_eq in H. exact H.
Qed.

(** After [updateOne] the read returns the modified first match, provided
    the modification keeps the key. *)
Lemma findOne_updateOne_some cid f l d :
  findOne cid l = Some d ->
  companyId (f d) = companyId d ->
  findOne cid (updateOne cid f l) = Some (f d).
Proof.
  unfold findOne. induction l as [|x l IH]; simpl; [discriminate|].
  intros H Hk. destruct (matches cid x) eqn:Hx.
  - injection H as ->. simpl.
    unfold matches in *. rewrite Hk, Hx. reflexivity.
  - simpl. rewrite Hx. apply IH; assumption.
Qed.

(** With no match, [updateOne] writes nothing. *)
Lemma updateOne_none cid f l :
  findOne cid l = None -> updateOne cid f l = l.
Proof.
  unfold findOne. induction l as [|x l IH]; simpl; [reflexivity|].
  destruct (matches cid x) eqn:Hx; [discriminate|].
  intros H. rewrite (IH H). reflexivity.
Qed.

Lemma applySet_keeps_key a r e u d : companyId (applySet a r e u d) = companyId d.
Proof. reflexivity. Qed.

(** ** Connecting, one call at a time *)

Lemma connFrame_refl s : connFrame s s.
Proof. repeat split. Qed.

Lemma ensureConnected_frame o s : connFrame s (snd (ensureConnected o s)).
Proof.
  js_unfold. destruct s as [c mc mi tk n1 n2 n3 n4 n5 n6]; simpl.
  destruct mc; simpl; [repeat split|].
  destruct mi; simpl.
  - destruct (connectOk o n3); repeat split.
  - destruct (importOk o n2); simpl; [|repeat split].
    destruct (connectOk o n3); repeat split.
Qed.

Lemma ensureConnected_ok o s :
  canConnect o s = true -> exists h, fst (ensureConnected o s) = Ok (Some h).
Proof.
  unfold canConnect. js_unfold.
  destruct s as [c mc mi tk n1 n2 n3 n4 n5 n6]; simpl.
  destruct mc as [h|]; simpl; [intros _; exists h; reflexivity|].
  destruct mi; simpl.
  - intros ->. exists n3. reflexivity.
  - destruct (importOk o n2); simpl; [|discriminate].
    intros ->. exists n3. reflexivity.
Qed.

Lemma ensureConnected_throw o s :
  canConnect o s = false ->
  fst (ensureConnected o s) = Throw DriverMissing \/
  fst (ensureConnected o s) = Throw ConnectionError.
Proof.
  unfold canConnect. js_unfold.
  destruct s as [c mc mi tk n1 n2 n3 n4 n5 n6]; simpl.
  destruct mc as [h|]; simpl; [discriminate|].
  destruct mi; simpl.
  - intros ->. right. reflexivity.
  - destruct (importOk o n2); simpl; [|intros _; left; reflexivity].
    intros ->. right. reflexivity.
Qed.

Lemma ensureConnected_result o s r s' :
  ensureConnected o s = (r, s') ->
  connFrame s s' /\
  match r with
  | Ok _ => canConnect o s = true
  | Throw e => canConnect o s = false /\ (e = DriverMissing \/ e = ConnectionError)
  end.
Proof.
  intros H. split.
  - pose proof (ensureConnected_frame o s) as F. rewrite H in F. exact F.
  - destruct (canConnect o s) eqn:Hc.
    + destruct (ensureConnected_ok o s Hc) as [h Hh]. rewrite H in Hh. simpl in Hh.
      subst r. reflexivity.
    + destruct (ensureConnected_throw o s Hc) as [Hh|Hh]; rewrite H in Hh;
        simpl in Hh; subst r; auto.
Qed.

(** A rejected [connect()] leaves the client stored (line 98 ran), so the
    next call returns it at once and connects nothing. *)
Lemma ensureConnected_after_failed_connect o s :
  mongoClient s = None ->
  (mongoImported s || importOk o (nImport s)) = true ->
  connectOk o (nConnect s) = false ->
  let s' := snd (ensureConnected o s) in
  fst (ensureConnected o s) = Throw ConnectionError /\
  mongoClient s' = Some (nConnect s) /\
  ensureConnected o s' = (Ok (Some (nConnect s)), s').
Proof.
  js_unfold. destruct s as [c mc mi tk n1 n2 n3 n4 n5 n6]; simpl.
  intros -> Hi Hc. destruct mi; simpl in *.
  - rewrite Hc. simpl. auto.
  - rewrite Hi. simpl. rewrite Hc. simpl. auto.
Qed.

(** ** Refreshing *)

Section Refresh.

Variable o : Oracle.
Variable cid : string.

Lemma writeThrough_cache r rt s :
  cache (snd (writeThrough o cid r rt s)) = cache s /\
  nPost (snd (writeThrough o cid r rt s)) = nPost s.
Proof.
  unfold writeThrough, bind.
  destruct (ensureConnected o s) as [[h|e] s1] eqn:He;
    apply ensureConnected_result in He; destruct He as [(Hc & _ & _ & _ & _ & Hp) _];
    simpl; [|auto].
  unfold dateNow, dbUpdateOne. simpl.
  destruct (updateOk o (nUpdate s1)); simpl; auto.
Qed.

Lemma writeThrough_ok r rt s :
  canConnect o s = true -> updateOk o (nUpdate s) = true ->
  fst (writeThrough o cid r rt s) = Ok tt /\
  tokens (snd (writeThrough o cid r rt s)) =
    updateOne cid (written r rt (clock o (nClock s))) (tokens s).
Proof.
  intros Hc Hu. unfold writeThrough, bind.
  destruct (ensureConnected o s) as [[h|e] s1] eqn:He;
    apply ensureConnected_result in He;
    destruct He as [(_ & Ht & Hn & _ & Hup & _) Hr].
  - unfold dateNow, dbUpdateOne. simpl. rewrite Hup, Hu. simpl.
    rewrite Ht, Hn. auto.
  - destruct Hr as [Hr _]. congruence.
Qed.

Lemma writeThrough_fail r rt s :
  canConnect o s = false \/ updateOk o (nUpdate s) = false ->
  (exists e, fst (writeThrough o cid r rt s) = Throw e) /\
  tokens (snd (writeThrough o cid r rt s)) = tokens s.
Proof.
  intros H. unfold writeThrough, bind.
  destruct (ensureConnected o s) as [[h|e] s1] eqn:He;
    apply ensureConnected_result in He;
    destruct He as [(_ & Ht & Hn & _ & Hup & _) Hr].
  - destruct H as [H|H]; [congruence|].
    unfold dateNow, dbUpdateOne. simpl. rewrite Hup, H. simpl.
    split; [eexists; reflexivity|exact Ht].
  - simpl. split; [eexists; reflexivity|exact Ht].
Qed.

(** Whatever becomes of the write-through, [refreshWith] returns the new
    access token and leaves the refreshed entry in the cache. *)
Lemma refreshWith_returns r rt s :
  fst (refreshWith o cid r rt s) = Ok (r_access_token r) /\
  cache (snd (refreshWith o cid r rt s)) =
    Some (refreshedEntry r rt (clock o (nClock s))) /\
  nPost (snd (refreshWith o cid r rt s)) = nPost s.
Proof.
  unfold refreshWith, bind, try_catch, modify, ret, dateNow.
  set (s1 := set_cache _ (tick_clock s)).
  destruct (writeThrough_cache r rt s1) as [Hc Hp].
  destruct (writeThrough o cid r rt s1) as [[[]|e] s2]; simpl in *;
    rewrite Hc, Hp; auto.
Qed.

Lemma refreshWith_tokens_ok r rt s :
  canConnect o s = true -> updateOk o (nUpdate s) = true ->
  tokens (snd (refreshWith o cid r rt s)) =
    updateOne cid (written r rt (clock o (S (nClock s)))) (tokens s).
Proof.
  intros Hc Hu.
  unfold refreshWith, bind, try_catch, modify, ret, dateNow.
  set (s1 := set_cache _ (tick_clock s)).
  destruct (writeThrough_ok r rt s1 Hc Hu) as [Hr Ht].
  destruct (writeThrough o cid r rt s1) as [[[]|e] s2]; simpl in *;
    [exact Ht|discriminate].
Qed.

Lemma refreshWith_tokens_fail r rt s :
  canConnect o s = false \/ updateOk o (nUpdate s) = false ->
  tokens (snd (refreshWith o cid r rt s)) = tokens s.
Proof.
  intros H.
  unfold refreshWith, bind, try_catch, modify, ret, dateNow.
  set (s1 := set_cache _ (tick_clock s)).
  destruct (writeThrough_fail r rt s1 H) as [_ Ht].
  destruct (writeThrough o cid r rt s1) as [[[]|e] s2]; simpl in *; exact Ht.
Qed.

Lemma refreshToken_post_ok rt r s :
  post o (nPost s) rt = Some r ->
  refreshToken o cid rt s = refreshWith o cid r rt (tick_post s).
Proof. intros H. unfold refreshToken, bind, httpPost. rewrite H. reflexivity. Qed.

Lemma refreshToken_post_fail rt s :
  post o (nPost s) rt = None ->
  refreshToken o cid rt s = (Throw (refreshFailure o (nPost s) rt), tick_post s).
Proof.
  intros H. unfold refreshToken, bind, httpPost, refreshFailure. rewrite H.
  destruct (nullBody o (nPost s) rt); reflexivity.
Qed.

(** [refreshToken] throws only when the POST yields no response record,
    and then writes nothing. *)
Lemma refreshToken_throw rt s e s' :
  refreshToken o cid rt s = (Throw e, s') ->
  e = refreshFailure o (nPost s) rt /\ post o (nPost s) rt = None /\
  s' = tick_post s.
Proof.
  destruct (post o (nPost s) rt) as [r|] eqn:Hp.
  - rewrite (refreshToken_post_ok _ _ _ Hp). intros H.
    destruct (refreshWith_returns r rt (tick_post s)) as [Hr _].
    rewrite H in Hr. discriminate.
  - rewrite (refreshToken_post_fail _ _ Hp). intros H. injection H as <- <-. auto.
Qed.


End Refresh.

(** ** Reading the store *)

Section Read.

Variable o : Oracle.
Variable cid : string.

Lemma loadDoc_expired d s :
  dbExpired o (nClock s) d = true ->
  loadDoc o cid d s = refreshToken o cid (refresh_token d) (loadState d s).
Proof.
  unfold dbExpired, loadNow, loadUpd, loadState, loadDoc, bind, ret, dateNow.
  destruct (updatedAt d) as [u|]; cbn; intros ->; reflexivity.
Qed.

Lemma loadDoc_valid d s :
  dbExpired o (nClock s) d = false ->
  fst (loadDoc o cid d s) = Ok (access_token d) /\
  cache (snd (loadDoc o cid d s)) =
    Some (mkCached (access_token d) (refresh_token d)
                   (docExpiresAt d (loadUpd o (nClock s) d))
                   (clock o (nClock (loadState d s)))) /\
  tokens (snd (loadDoc o cid d s)) = tokens s /\
  nPost (snd (loadDoc o cid d s)) = nPost s.
Proof.
  unfold dbExpired, loadNow, loadUpd, loadState, loadDoc, bind, ret, dateNow, modify.
  destruct (updatedAt d) as [u|]; cbn; intros ->; cbn; auto.
Qed.

(** [readTokenFromDb] up to line 122. *)
Lemma readTokenFromDb_found s d :
  canConnect o s = true -> findOk o (nFind s) = true ->
  findOne cid (tokens s) = Some d ->
  exists s1, connFrame s s1 /\
             readTokenFromDb o cid s = loadDoc o cid d (tick_find s1).
Proof.
  intros Hc Hf Hd. unfold readTokenFromDb, bind.
  destruct (ensureConnected o s) as [[h|e] s1] eqn:He;
    apply ensureConnected_result in He; destruct He as [F Hr].
  - exists s1. split; [exact F|].
    destruct F as (_ & Ht & _ & Hn & _ & _).
    unfold dbFindOne. rewrite Hn, Hf, Ht, Hd. reflexivity.
  - destruct Hr as [Hr _]. congruence.
Qed.

Lemma readTokenFromDb_absent s :
  findOne cid (tokens s) = None ->
  (exists e, fst (readTokenFromDb o cid s) = Throw e) /\
  (canConnect o s = true -> findOk o (nFind s) = true ->
   fst (readTokenFromDb o cid s) = Throw NotFoundError).
Proof.
  intros Hd. unfold readTokenFromDb, bind.
  destruct (ensureConnected o s) as [[h|e] s1] eqn:He;
    apply ensureConnected_result in He; destruct He as [F Hr].
  - destruct F as (_ & Ht & _ & Hn & _ & _).
    unfold dbFindOne, throw. rewrite Hn, Ht, Hd.
    destruct (findOk o (nFind s)); cbn.
    + split; [eexists|]; reflexivity.
    + split; [eexists; reflexivity|discriminate].
  - cbn. split; [eexists; reflexivity|].
    destruct Hr as [Hr _]. congruence.
Qed.

(** ** The cache path *)

Lemma getAccessToken_cachePath s :
  getAccessToken o cid s =
  match cachePath o cid s with
  | (Ok (Some tok), s1) => (Ok tok, s1)
  | (Ok None, s1) => readTokenFromDb o cid s1
  | (Throw e, s1) => (Throw e, s1)
  end.
Proof.
  unfold getAccessToken, bind, ret.
  destruct (cachePath o cid s) as [[[tok|]|e] s1]; reflexivity.
Qed.

Lemma cachePath_miss s :
  cacheMiss o s = true ->
  exists s1, cachePath o cid s = (Ok None, s1) /\ (s1 = s \/ s1 = tick_clock s).
Proof.
  unfold cacheMiss, cachePath, bind, gets, ret, dateNow.
  destruct (cache s) as [c|]; cbn.
  - rewrite negb_true_iff. intros ->. eexists. split; [reflexivity|auto].
  - intros _. eexists. split; [reflexivity|auto].
Qed.

Lemma cachePath_hit s c :
  cache s = Some c ->
  isFresh (clock o (nClock s)) c = true ->
  cacheNeedsRefresh (clock o (S (nClock s))) (expiresAt c) = false ->
  cachePath o cid s = (Ok (Some (accessToken c)), tick_clock (tick_clock s)).
Proof.
  unfold cacheNeedsRefresh, cachePath, bind, gets, ret, dateNow.
  intros -> Hf Hv. apply negb_false_iff in Hv. cbn. rewrite Hf. cbn. rewrite Hv. reflexivity.
Qed.

Lemma cachePath_refresh s c :
  cache s = Some c ->
  isFresh (clock o (nClock s)) c = true ->
  cacheNeedsRefresh (clock o (S (nClock s))) (expiresAt c) = true ->
  cachePath o cid s =
  match refreshToken o cid (refreshToken_ c) (tick_clock (tick_clock s)) with
  | (Ok tok, s1) => (Ok (Some tok), s1)
  | (Throw _, s1) => (Ok None, s1)
  end.
Proof.
  unfold cacheNeedsRefresh, cachePath, bind, gets, ret, dateNow, try_catch.
  intros -> Hf Hv. apply negb_true_iff in Hv. cbn. rewrite Hf. cbn. rewrite Hv.
  destruct (refreshToken o cid (refreshToken_ c) (tick_clock (tick_clock s)))
    as [[tok|e] s1]; reflexivity.
Qed.

(** The cache path never throws, and it leaves the collection alone when it
    falls through. *)
Lemma cachePath_fallthrough s s1 :
  cachePath o cid s = (Ok None, s1) ->
  tokens s1 = tokens s /\ canConnect o s1 = canConnect o s /\ nFind s1 = nFind s.
Proof.
  unfold cachePath, bind, gets, ret, dateNow, try_catch.
  destruct (cache s) as [c|]; cbn.
  - destruct (isFresh _ c); cbn.
    + destruct (cacheTokenValid _ _); cbn; [discriminate|].
      destruct (refreshToken o cid (refreshToken_ c) (tick_clock (tick_clock s)))
        as [[tok|e] s2] eqn:Hr; [discriminate|].
      apply refreshToken_throw in Hr. destruct Hr as (_ & _ & ->).
      intros H. injection H as <-. auto.
    + intros H. injection H as <-. auto.
  - intros H. injection H as <-. auto.
Qed.

End Read.

(** ** Failure policy of [getAccessToken] *)

(** C5. A refresh that fails on the cache path (fresh entry, token near or
    past expiry) is caught: the call goes on to read the store from the state
    the failed attempt left.  On the store path, whichever way it was
    reached, a failing refresh of an expired record is the call's result:
    [getAccessToken] throws what the refresh threw, which is [RefreshError]
    when the endpoint rejected the request. *)
Theorem refresh_failure_policy (o : Oracle) (cid : string) :
  (forall s c,
      cache s = Some c ->
      isFresh (clock o (nClock s)) c = true ->
      cacheNeedsRefresh (clock o (S (nClock s))) (expiresAt c) = true ->
      post o (nPost s) (refreshToken_ c) = None ->
      cachePath o cid s = (Ok None, tick_post (tick_clock (tick_clock s))) /\
      getAccessToken o cid s =
        readTokenFromDb o cid (tick_post (tick_clock (tick_clock s)))) /\
  (forall s s1 d,
      cachePath o cid s = (Ok None, s1) ->
      canConnect o s1 = true -> findOk o (nFind s1) = true ->
      findOne cid (tokens s1) = Some d ->
      dbExpired o (nClock s1) d = true ->
      post o (nPost s1) (refresh_token d) = None ->
      fst (getAccessToken o cid s) =
        Throw (refreshFailure o (nPost s1) (refresh_token d)) /\
      (nullBody o (nPost s1) (refresh_token d) = false ->
       fst (getAccessToken o cid s) = Throw RefreshError)).
Proof.
  split.
  - intros s c Hc Hf Hn Hp.
    assert (Hcp : cachePath o cid s = (Ok None, tick_post (tick_clock (tick_clock s)))).
    { rewrite (cachePath_refresh o cid s c Hc Hf Hn).
      rewrite refreshToken_post_fail by exact Hp. reflexivity. }
    split; [exact Hcp|].
    rewrite getAccessToken_cachePath, Hcp. reflexivity.
  - intros s s1 d Hcp Hc Hf Hd He Hp.
    rewrite getAccessToken_cachePath, Hcp.
    destruct (readTokenFromDb_found o cid s1 d Hc Hf Hd) as (s2 & F & ->).
    destruct F as (_ & _ & Hn & _ & _ & Hq).
    assert (Hq' : nPost (loadState d (tick_find s2)) = nPost s1)
      by (unfold loadState; destruct (updatedAt d); cbn; exact Hq).
    rewrite loadDoc_expired by (cbn; rewrite Hn; exact He).
    rewrite refreshToken_post_fail by (rewrite Hq'; exact Hp).
    rewrite Hq'. cbn. split; [reflexivity|].
    intros Hb. unfold refreshFailure. rewrite Hb. reflexivity.
Qed.

(** An in-cache refresh fails, the store record is expired too, and the
    second refresh fails as well: the caller gets [RefreshError]. *)
Lemma refresh_failure_policy_witness :
  let o := Sample.oracle 50000 None in
  let s := Sample.cached Sample.entry100 [Sample.doc100] in
  getAccessToken o Sample.acct s =
    readTokenFromDb o Sample.acct (tick_post (tick_clock (tick_clock s))) /\
  fst (getAccessToken o Sample.acct s) = Throw RefreshError.
Proof.
  intros o s.
  pose proof (refresh_failure_policy o Sample.acct) as [A B].
  destruct (A s Sample.entry100) as [Hcp Hget]; try reflexivity.
  split; [exact Hget|].
  pose proof (B s _ Sample.doc100 Hcp eq_refl eq_refl eq_refl eq_refl eq_refl)
    as [_ HB].
  exact (HB eq_refl).
Defined.

(** C7. With no cache entry, or a stale one, and no record for the
    account in the store, [getAccessToken] returns no token: it throws, and
    when the store can be reached and read the error is [NotFoundError]. *)
Theorem empty_store_not_found (o : Oracle) (cid : string) (s : State) :
  cacheMiss o s = true ->
  findOne cid (tokens s) = None ->
  (forall tok, fst (getAccessToken o cid s) <> Ok tok) /\
  (canConnect o s = true -> findOk o (nFind s) = true ->
   fst (getAccessToken o cid s) = Throw NotFoundError).
Proof.
  intros Hm Hd.
  destruct (cachePath_miss o cid s Hm) as (s1 & Hcp & Hs1).
  rewrite getAccessToken_cachePath, Hcp.
  assert (E : tokens s1 = tokens s /\ canConnect o s1 = canConnect o s /\
              nFind s1 = nFind s)
    by (destruct Hs1 as [->| ->]; auto).
  destruct E as (Et & Ec & Ef).
  rewrite <- Et in Hd.
  destruct (readTokenFromDb_absent o cid s1 Hd) as [[e He] Hnf].
  split.
  - intros tok. rewrite He. discriminate.
  - intros Hc Hf. apply Hnf; congruence.
Qed.

Lemma empty_store_not_found_witness :
  fst (getAccessToken (Sample.oracle 0 (Some Sample.respNew)) Sample.acct
                      (Sample.fresh [])) = Throw NotFoundError.
Proof.
  apply (empty_store_not_found (Sample.oracle 0 (Some Sample.respNew))
                               Sample.acct (Sample.fresh []));
    reflexivity.
Defined.

(** ** The write-through *)

(** C6. After a successful POST, a failing write-through (the store cannot
    be connected, or [updateOne] rejects) is caught: [refreshToken] returns
    the new access token, the cache holds the refreshed entry, nothing is
    persisted.  Hence [getAccessToken] returns the new token on the cache
    path and on the store path alike. *)
Theorem write_failure_is_swallowed (o : Oracle) (cid : string) :
  (forall s rt r,
      post o (nPost s) rt = Some r ->
      canConnect o s = false \/ updateOk o (nUpdate s) = false ->
      fst (refreshToken o cid rt s) = Ok (r_access_token r) /\
      cache (snd (refreshToken o cid rt s)) =
        Some (refreshedEntry r rt (clock o (nClock s))) /\
      tokens (snd (refreshToken o cid rt s)) = tokens s) /\
  (forall s c r,
      cache s = Some c ->
      isFresh (clock o (nClock s)) c = true ->
      cacheNeedsRefresh (clock o (S (nClock s))) (expiresAt c) = true ->
      post o (nPost s) (refreshToken_ c) = Some r ->
      canConnect o s = false \/ updateOk o (nUpdate s) = false ->
      fst (getAccessToken o cid s) = Ok (r_access_token r) /\
      cache (snd (getAccessToken o cid s)) =
        Some (refreshedEntry r (refreshToken_ c) (clock o (S (S (nClock s))))) /\
      tokens (snd (getAccessToken o cid s)) = tokens s) /\
  (forall s s1 d r,
      cachePath o cid s = (Ok None, s1) ->
      canConnect o s1 = true -> findOk o (nFind s1) = true ->
      findOne cid (tokens s1) = Some d ->
      dbExpired o (nClock s1) d = true ->
      post o (nPost s1) (refresh_token d) = Some r ->
      updateOk o (nUpdate s1) = false ->
      fst (getAccessToken o cid s) = Ok (r_access_token r) /\
      accessToken_of (cache (snd (getAccessToken o cid s))) =
        Some (r_access_token r) /\
      tokens (snd (getAccessToken o cid s)) = tokens s).
Proof.
  assert (R : forall s rt r,
             post o (nPost s) rt = Some r ->
             canConnect o s = false \/ updateOk o (nUpdate s) = false ->
             fst (refreshToken o cid rt s) = Ok (r_access_token r) /\
             cache (snd (refreshToken o cid rt s)) =
               Some (refreshedEntry r rt (clock o (nClock s))) /\
             tokens (snd (refreshToken o cid rt s)) = tokens s).
  { intros s rt r Hp Hw. rewrite (refreshToken_post_ok o cid rt r s Hp).
    destruct (refreshWith_returns o cid r rt (tick_post s)) as (H1 & H2 & _).
    repeat split; [exact H1|exact H2|].
    rewrite (refreshWith_tokens_fail o cid r rt (tick_post s) Hw). reflexivity. }
  split; [exact R|split].
  - intros s c r Hc Hf Hn Hp Hw.
    rewrite getAccessToken_cachePath, (cachePath_refresh o cid s c Hc Hf Hn).
    destruct (R (tick_clock (tick_clock s)) (refreshToken_ c) r Hp Hw)
      as (H1 & H2 & H3).
    destruct (refreshToken o cid (refreshToken_ c) (tick_clock (tick_clock s)))
      as [[tok|e] s2]; cbn in *; [|discriminate].
    injection H1 as ->. auto.
  - intros s s1 d r Hcp Hc Hf Hd He Hp Hu.
    destruct (cachePath_fallthrough o cid s s1 Hcp) as (Ht & _ & _).
    rewrite getAccessToken_cachePath, Hcp.
    destruct (readTokenFromDb_found o cid s1 d Hc Hf Hd) as (s2 & F & ->).
    destruct F as (_ & Ht2 & Hn & _ & Hu2 & Hq).
    rewrite loadDoc_expired by (cbn; rewrite Hn; exact He).
    set (s3 := loadState d (tick_find s2)).
    assert (E : nPost s3 = nPost s1 /\ nUpdate s3 = nUpdate s1 /\ tokens s3 = tokens s)
      by (unfold s3, loadState; destruct (updatedAt d); cbn;
          rewrite Hq, Hu2, Ht2, Ht; auto).
    destruct E as (E1 & E2 & E3).
    destruct (R s3 (refresh_token d) r) as (H1 & H2 & H3).
    + rewrite E1. exact Hp.
    + right. rewrite E2. exact Hu.
    + repeat split; [exact H1|rewrite H2; reflexivity|congruence].
Qed.

(** The endpoint answers, the store is down: the caller still gets "new". *)
Lemma write_failure_is_swallowed_witness :
  let o := Sample.oracle_store_down 50000 (Some Sample.respNew) in
  let s := Sample.cached Sample.entry100 [Sample.doc100] in
  fst (getAccessToken o Sample.acct s) = Ok (Some "new") /\
  tokens (snd (getAccessToken o Sample.acct s)) = [Sample.doc100].
Proof.
  intros o s.
  pose proof (write_failure_is_swallowed o Sample.acct) as (_ & B & _).
  destruct (B s Sample.entry100 Sample.respNew) as (H1 & _ & H3);
    try reflexivity.
  - left. reflexivity.
  - split; [exact H1|exact H3].
Defined.

Lemma lifetime_idem (e : option Z) : lifetime (Some (lifetime e)) = lifetime e.
Proof. apply lifetime_truthy, lifetime_nonzero. Qed.

(** C3, as stated, fails: the write is [updateOne] without the [upsert]
    option.  On an empty collection the refresh succeeds, the write-through
    is issued and resolves, and the read that follows finds no record. *)
Lemma write_through_does_not_insert :
  let o := Sample.oracle 1000 (Some Sample.respNew) in
  let res := refreshToken o Sample.acct (Some "rt") (Sample.fresh []) in
  fst res = Ok (Some "new") /\
  nUpdate (snd res) = 1%nat /\
  findOne Sample.acct (tokens (snd res)) = None /\
  ~ (exists d, findOne Sample.acct (tokens (snd res)) = Some d /\
               access_token d = Some "new").
Proof.
  cbv zeta. repeat split; try reflexivity.
  intros (d & Hd & _). vm_compute in Hd. discriminate.
Qed.

(** C3, amended.  After a successful refresh whose write-through succeeds:
    if a record existed for the account, the read returns it with the access
    and refresh tokens just written (those the cache holds), with
    [expires_in] the effective lifetime and [updatedAt] the write instant
    [u], so that its expiry on a read is [u + lifetime * 1000], later than
    the cached expiry by exactly the time between the two clock reads; if no
    record existed, none exists afterwards. *)
Theorem write_through_updates_existing_record
        (o : Oracle) (cid : string) (s : State) (rt : option string)
        (r : RefreshResponse) :
  post o (nPost s) rt = Some r ->
  canConnect o s = true ->
  updateOk o (nUpdate s) = true ->
  let s' := snd (refreshToken o cid rt s) in
  let now := clock o (nClock s) in
  let u := clock o (S (nClock s)) in
  (forall d0, findOne cid (tokens s) = Some d0 ->
     exists d c,
       findOne cid (tokens s') = Some d /\ cache s' = Some c /\
       access_token d = r_access_token r /\ access_token d = accessToken c /\
       refresh_token d = or_str (r_refresh_token r) rt /\
       refresh_token d = refreshToken_ c /\
       expires_in d = Some (lifetime (r_expires_in r)) /\
       updatedAt d = Some u /\
       (forall n, docExpiresAt d (loadUpd o n d) = u + lifetime (r_expires_in r) * 1000) /\
       expiresAt c = now + lifetime (r_expires_in r) * 1000) /\
  (findOne cid (tokens s) = None -> findOne cid (tokens s') = None).
Proof.
  intros Hp Hc Hu s' now u. subst s'.
  rewrite (refreshToken_post_ok o cid rt r s Hp).
  destruct (refreshWith_returns o cid r rt (tick_post s)) as (_ & Hcache & _).
  pose proof (refreshWith_tokens_ok o cid r rt (tick_post s) Hc Hu) as Ht.
  cbn [nClock tick_post] in *. fold now in Hcache. fold u in Ht.
  split.
  - intros d0 Hd0. eexists. eexists.
    split; [|split; [exact Hcache|]].
    + rewrite Ht. apply findOne_updateOne_some; [exact Hd0|reflexivity].
    + cbn. repeat split.
      intros n. unfold docExpiresAt, loadUpd. cbn. rewrite lifetime_idem. reflexivity.
  - intros Hnone. rewrite Ht, (updateOne_none _ _ _ Hnone). exact Hnone.
Qed.

Lemma write_through_updates_existing_record_witness :
  let o := Sample.oracle 1000 (Some Sample.respNew) in
  let s' := snd (refreshToken o Sample.acct (Some "rt") (Sample.fresh [Sample.doc100])) in
  exists d, findOne Sample.acct (tokens s') = Some d /\
            access_token d = Some "new" /\ refresh_token d = Some "rt2" /\
            expires_in d = Some 3600 /\ updatedAt d = Some 1000.
Proof.
  intros o s'.
  destruct (write_through_updates_existing_record
              o Sample.acct (Sample.fresh [Sample.doc100]) (Some "rt")
              Sample.respNew eq_refl eq_refl eq_refl) as [A _].
  destruct (A Sample.doc100 eq_refl)
    as (d & c & Hd & _ & Ha & _ & Hr & _ & He & Hu & _).
  exists d. repeat split; assumption.
Defined.

(** ** Where a returned token comes from *)

Section Provenance.

Variable o : Oracle.
Variable cid : string.









End Provenance.




(** ** Defaults *)

(** C9. A falsy [expires_in] (missing, or 0) counts as missing, in a stored
    record and in a refresh answer: [loadDoc] and [refreshWith] run exactly
    as on the same input with the field removed; the expiry is computed
    with 86400 s and the lifetime persisted is 86400, not 0.  For a stored
    record: the refresh is decided against [updatedAt + 86400 s], and when
    the record is served the cache entry expires then.  For a refresh
    answer: the entry left in the cache expires 86400 s after the read of
    line 157, and the record read back after a successful write has
    [expires_in = 86400] and so expires 86400 s after the write. *)
Theorem falsy_expires_in_is_default (o : Oracle) (cid : string) :
  (forall d s,
      truthy_num (expires_in d) = false ->
      loadDoc o cid d s = loadDoc o cid (with_expires_in None d) s /\
      (forall upd, docExpiresAt d upd = upd + 86400 * 1000) /\
      (loadNow o (nClock s) d <= loadUpd o (nClock s) d + 86400 * 1000 - 60000 ->
       fst (loadDoc o cid d s) = Ok (access_token d) /\
       exists c, cache (snd (loadDoc o cid d s)) = Some c /\
                 accessToken c = access_token d /\
                 expiresAt c = loadUpd o (nClock s) d + 86400 * 1000) /\
      (loadNow o (nClock s) d > loadUpd o (nClock s) d + 86400 * 1000 - 60000 ->
       loadDoc o cid d s =
         refreshToken o cid (refresh_token d) (loadState d s))) /\
  (forall r rt s,
      truthy_num (r_expires_in r) = false ->
      refreshWith o cid r rt s = refreshWith o cid (with_r_expires_in None r) rt s /\
      (forall now, expiresAt (refreshedEntry r rt now) = now + 86400 * 1000) /\
      (forall a rt' u d,
          expires_in (applySet a rt' (lifetime (r_expires_in r)) u d) = Some 86400) /\
      fst (refreshWith o cid r rt s) = Ok (r_access_token r) /\
      (exists c, cache (snd (refreshWith o cid r rt s)) = Some c /\
                 accessToken c = r_access_token r /\
                 fetchedAt c = clock o (nClock s) /\
                 expiresAt c = clock o (nClock s) + 86400 * 1000) /\
      (canConnect o s = true -> updateOk o (nUpdate s) = true ->
       forall d0, findOne cid (tokens s) = Some d0 ->
       exists d, findOne cid (tokens (snd (refreshWith o cid r rt s))) = Some d /\
                 access_token d = r_access_token r /\
                 expires_in d = Some 86400 /\
                 updatedAt d = Some (clock o (S (nClock s))) /\
                 forall n, docExpiresAt d (loadUpd o n d) =
                           clock o (S (nClock s)) + 86400 * 1000)).
Proof.
  split.
  - intros d s H.
    assert (HE : forall upd, docExpiresAt d upd = upd + 86400 * 1000).
    { intros upd. unfold docExpiresAt. rewrite (lifetime_falsy _ H). reflexivity. }
    split; [|split; [exact HE|split]].
    + unfold loadDoc, docExpiresAt.
      cbn [with_expires_in updatedAt expires_in access_token refresh_token].
      rewrite (lifetime_with_None _ H). reflexivity.
    + intros Hle.
      assert (He : dbExpired o (nClock s) d = false).
      { unfold dbExpired. rewrite HE. apply dbNeedsRefresh_false_iff. exact Hle. }
      destruct (loadDoc_valid o cid d s He) as (H1 & H2 & _).
      split; [exact H1|].
      eexists. split; [exact H2|]. cbn. split; [reflexivity|apply HE].
    + intros Hgt. apply loadDoc_expired.
      unfold dbExpired. rewrite HE. apply dbNeedsRefresh_iff. exact Hgt.
  - intros r rt s H.
    destruct (refreshWith_returns o cid r rt s) as (R1 & R2 & _).
    split; [|split; [|split; [|split; [exact R1|split]]]].
    + unfold refreshWith, writeThrough, refreshedEntry.
      cbn [with_r_expires_in r_access_token r_refresh_token r_expires_in].
      rewrite (lifetime_with_None _ H). reflexivity.
    + intros now. cbn. rewrite (lifetime_falsy _ H). reflexivity.
    + intros a rt' u d. cbn. rewrite (lifetime_falsy _ H). reflexivity.
    + eexists. split; [exact R2|]. cbn. rewrite (lifetime_falsy _ H). auto.
    + intros Hc Hu d0 Hd0.
      pose proof (refreshWith_tokens_ok o cid r rt s Hc Hu) as Ht.
      eexists. split.
      * rewrite Ht. apply findOne_updateOne_some; [exact Hd0|reflexivity].
      * unfold written, applySet, docExpiresAt, loadUpd. cbn.
        rewrite lifetime_idem, (lifetime_falsy _ H). auto.
Qed.

Lemma falsy_expires_in_is_default_witness :
  let o := Sample.oracle 1000 (Some Sample.respZero) in
  let d0 := with_expires_in (Some 0) Sample.doc100 in
  let s := Sample.fresh [Sample.doc100] in
  (forall upd, docExpiresAt d0 upd = upd + 86400 * 1000) /\
  refreshWith o Sample.acct Sample.respZero (Some "rt") s =
    refreshWith o Sample.acct (with_r_expires_in None Sample.respZero) (Some "rt") s /\
  (exists d, findOne Sample.acct
               (tokens (snd (refreshWith o Sample.acct Sample.respZero (Some "rt") s))) =
             Some d /\ expires_in d = Some 86400) /\
  fst (loadDoc o Sample.acct d0 s) = Ok (Some "tok").
Proof.
  intros o d0 s.
  pose proof (falsy_expires_in_is_default o Sample.acct) as [A B].
  destruct (A d0 s eq_refl) as (_ & A2 & A3 & _).
  destruct (B Sample.respZero (Some "rt") s eq_refl) as (B1 & _ & _ & _ & _ & B6).
  split; [exact A2|]. split; [exact B1|]. split.
  - destruct (B6 eq_refl eq_refl Sample.doc100 eq_refl) as (d & Hd & _ & He & _).
    exists d. split; [exact Hd|exact He].
  - destruct A3 as [A3 _]; [vm_compute; discriminate|exact A3].
Defined.

(** For a record without [updatedAt], line 128 refreshes exactly when the
    time between the clock reads of lines 124 and 128 exceeds the lifetime
    less the skew. *)
Lemma unstamped_expired_iff (o : Oracle) (n : nat) (d : TokenDocument) :
  updatedAt d = None ->
  (dbExpired o n d = true <->
   clock o (S n) - clock o n > (lifetime (expires_in d) - 60) * 1000).
Proof.
  intros H. unfold dbExpired, loadNow, loadUpd, docExpiresAt. rewrite H.
  rewrite dbNeedsRefresh_iff. lia.
Qed.

(** C10. A stored record without [updatedAt] gets the read instant plus its
    lifetime as expiry.  When the effective lifetime exceeds 60 s it is not
    refreshed: the token is cached and returned, and no POST is made.  (The
    clock is read on line 124 and again on line 128; the two reads are taken
    to be less than a second apart.) *)
Theorem unstamped_record_is_never_refreshed
        (o : Oracle) (cid : string) (s : State) (d : TokenDocument) :
  canConnect o s = true ->
  findOk o (nFind s) = true ->
  findOne cid (tokens s) = Some d ->
  updatedAt d = None ->
  lifetime (expires_in d) > 60 ->
  clock o (S (nClock s)) - clock o (nClock s) < 1000 ->
  fst (readTokenFromDb o cid s) = Ok (access_token d) /\
  cache (snd (readTokenFromDb o cid s)) =
    Some (mkCached (access_token d) (refresh_token d)
                   (clock o (nClock s) + lifetime (expires_in d) * 1000)
                   (clock o (S (S (nClock s))))) /\
  nPost (snd (readTokenFromDb o cid s)) = nPost s.
Proof.
  intros Hc Hf Hd Hu Hl Hgap.
  destruct (readTokenFromDb_found o cid s d Hc Hf Hd) as (s1 & F & ->).
  destruct F as (_ & _ & Hn & _ & _ & Hq).
  assert (He : dbExpired o (nClock (tick_find s1)) d = false).
  { cbn. rewrite Hn. destruct (dbExpired o (nClock s) d) eqn:E; [|reflexivity].
    apply (unstamped_expired_iff o _ d Hu) in E. lia. }
  destruct (loadDoc_valid o cid d (tick_find s1) He) as (H1 & H2 & _ & H4).
  repeat split; [exact H1| |rewrite H4; cbn; exact Hq].
  rewrite H2. unfold loadUpd, loadState, docExpiresAt. rewrite Hu. cbn.
  rewrite Hn. reflexivity.
Qed.

Lemma unstamped_record_is_never_refreshed_witness :
  fst (readTokenFromDb (Sample.oracle 999999999 None) Sample.acct
                       (Sample.fresh [Sample.docNoStamp])) = Ok (Some "old").
Proof.
  apply (unstamped_record_is_never_refreshed
           (Sample.oracle 999999999 None) Sample.acct
           (Sample.fresh [Sample.docNoStamp]) Sample.docNoStamp);
    reflexivity.
Defined.

(** ** The scenarios of the specification, run on the model *)

(** Scenario B: the record was written two hours ago with a lifetime of one
    hour; the call refreshes and returns the endpoint's token. *)
Example scenario_expired_record_is_refreshed :
  let d := mkDoc Sample.acct (Some "old") (Some "rt") (Some 3600) (Some 0) in
  let res := getAccessToken (Sample.oracle 7200000 (Some Sample.respNew))
                            Sample.acct (Sample.fresh [d]) in
  fst res = Ok (Some "new") /\ nPost (snd res) = 1%nat /\
  findOne Sample.acct (tokens (snd res)) =
    Some (mkDoc Sample.acct (Some "new") (Some "rt2") (Some 3600) (Some 7200000)).
Proof. vm_compute. repeat split. Qed.

(** Scenario C: the entry was fetched five minutes ago and expires in two
    hours; the call returns it and touches neither store nor endpoint. *)
Example scenario_cache_hit_does_no_io :
  let c := mkCached (Some "tok") (Some "rt") (300000 + 7200000) 0 in
  let res := getAccessToken (Sample.oracle 300000 None) Sample.acct
                            (Sample.cached c []) in
  fst res = Ok (Some "tok") /\
  nPost (snd res) = 0%nat /\ nFind (snd res) = 0%nat /\
  nConnect (snd res) = 0%nat /\ nUpdate (snd res) = 0%nat.
Proof. vm_compute. repeat split. Qed.

(** The cache path in general: a fresh entry whose token is not near expiry
    is returned after two clock reads and nothing else. *)
Lemma getAccessToken_cache_hit (o : Oracle) (cid : string) (s : State) (c : CachedToken) :
  cache s = Some c ->
  isFresh (clock o (nClock s)) c = true ->
  cacheNeedsRefresh (clock o (S (nClock s))) (expiresAt c) = false ->
  getAccessToken o cid s = (Ok (accessToken c), tick_clock (tick_clock s)).
Proof.
  intros Hc Hf Hv.
  rewrite getAccessToken_cachePath, (cachePath_hit o cid s c Hc Hf Hv).
  reflexivity.
Qed.

(** The store path at the boundary in general: a stamped record read at
    exactly its expiry less 60 s is served without a POST, although the
    cache path's test calls that very instant "needs refresh". *)
Lemma store_path_boundary_serves_stored_token
      (o : Oracle) (cid : string) (s : State) (d : TokenDocument) (u : Z) :
  cacheMiss o s = true ->
  canConnect o s = true -> findOk o (nFind s) = true ->
  findOne cid (tokens s) = Some d ->
  updatedAt d = Some u ->
  (forall n, clock o n = docExpiresAt d u - 60000) ->
  fst (getAccessToken o cid s) = Ok (access_token d) /\
  nPost (snd (getAccessToken o cid s)) = nPost s /\
  cacheNeedsRefresh (docExpiresAt d u - 60000) (docExpiresAt d u) = true.
Proof.
  intros Hm Hc Hf Hd Hu Hclk.
  destruct (cachePath_miss o cid s Hm) as (s1 & Hcp & Hs1).
  rewrite getAccessToken_cachePath, Hcp.
  assert (E : tokens s1 = tokens s /\ canConnect o s1 = canConnect o s /\
              nFind s1 = nFind s /\ nPost s1 = nPost s)
    by (destruct Hs1 as [->| ->]; auto).
  destruct E as (Et & Ec & Ef & Ep).
  rewrite <- Et in Hd. rewrite <- Ec in Hc. rewrite <- Ef in Hf.
  destruct (readTokenFromDb_found o cid s1 d Hc Hf Hd) as (s2 & F & ->).
  destruct F as (_ & _ & _ & _ & _ & Hq).
  assert (He : dbExpired o (nClock (tick_find s2)) d = false).
  { unfold dbExpired, loadNow, loadUpd. rewrite Hu, Hclk.
    apply dbNeedsRefresh_false_iff. lia. }
  destruct (loadDoc_valid o cid d (tick_find s2) He) as (H1 & _ & _ & H4).
  repeat split; [exact H1|rewrite H4; cbn; congruence|].
  apply cacheNeedsRefresh_iff. lia.
Qed.

(** ** The single-flight guard *)

Module SingleFlightFacts.
Import SingleFlight.
Local Close Scope string_scope.
Local Close Scope Z_scope.

Section Lists.
Context {A : Type}.

Lemma length_upd (i : nat) (x : A) l : List.length (upd i x l) = List.length l.
Proof.
  revert i. induction l as [|y l IH]; intros [|i]; simpl; auto.
Qed.

Lemma nth_upd (l : list A) p x q y :
  nth_error (upd p x l) q = Some y ->
  (q = p /\ y = x) \/ (q <> p /\ nth_error l q = Some y).
Proof.
  revert p q. induction l as [|z l IH]; intros [|p] [|q]; simpl;
    try discriminate.
  - intros H. injection H as <-. left. auto.
  - intros H. right. split; [discriminate|exact H].
  - intros H. right. split; [discriminate|exact H].
  - intros H. apply IH in H. destruct H as [[-> ->]|[Hn H]]; [left|right]; auto.
Qed.

Lemma nth_upd_same (l : list A) p x :
  (p < List.length l)%nat -> nth_error (upd p x l) p = Some x.
Proof.
  revert p. induction l as [|z l IH]; intros [|p]; simpl; try lia; auto.
  intros H. apply IH. lia.
Qed.

Lemma nth_upd_other (l : list A) p x q :
  q <> p -> nth_error (upd p x l) q = nth_error l q.
Proof.
  revert p q. induction l as [|z l IH]; intros [|p] [|q]; simpl; auto;
    try congruence.
Qed.

Lemma nth_snoc (l : list A) x q y :
  nth_error (l ++ [x]) q = Some y ->
  nth_error l q = Some y \/ (q = List.length l /\ y = x).
Proof.
  intros H. destruct (Nat.lt_ge_cases q (List.length l)) as [Hlt|Hge].
  - rewrite nth_error_app1 in H by exact Hlt. left. exact H.
  - rewrite nth_error_app2 in H by exact Hge.
    destruct (q - List.length l)%nat as [|k] eqn:E; simpl in H.
    + injection H as <-. right. split; [lia|reflexivity].
    + destruct k; discriminate.
Qed.

Lemma nth_lt (l : list A) q y : nth_error l q = Some y -> (q < List.length l)%nat.
Proof. intros H. apply nth_error_Some. congruence. Qed.

End Lists.

Lemma client_of_inv s : Inv s ->
  forall h, mongoClient s = Some h -> h = 0%nat /\ connects s = 1%nat.
Proof.
  intros I h H. pose proof (inv_connects s I). rewrite (inv_client s I) in H.
  destruct (Nat.eqb_spec (connects s) 0); [discriminate|].
  injection H as <-. split; lia.
Qed.

Lemma no_client_of_inv s : Inv s -> mongoClient s = None -> connects s = 0%nat.
Proof.
  intros I H. rewrite (inv_client s I) in H.
  destruct (Nat.eqb_spec (connects s) 0); [assumption|discriminate].
Qed.

Lemma init_inv b : Inv (init b).
Proof.
  constructor; simpl; try lia; try reflexivity;
    try (intros; match goal with H : nth_error [] ?q = Some _ |- _ => destruct q; discriminate H end).
  - intros; discriminate.
Qed.

Ltac nth_cases :=
  repeat match goal with
  | H : nth_error (_ ++ [_]) _ = Some _ |- _ =>
      apply nth_snoc in H; destruct H as [H|[? H]]
  | H : nth_error (upd _ _ _) _ = Some _ |- _ =>
      apply nth_upd in H; destruct H as [[? H]|[? H]]
  end.

Ltac learn H :=
  let T := type of H in
  match goal with
  | _ : T |- _ => fail 1
  | _ => pose proof H
  end.

Ltac saturate I :=
  repeat match goal with
  | H : nth_error (promises ?s) ?p = Some (Done (Fulfilled ?v)) |- _ =>
      learn (inv_fulfilled s I p v H)
  | H : nth_error (promises ?s) ?p = Some (AwaitImport ?b) |- _ =>
      first [ learn (inv_import s I p b H)
            | learn (inv_pending s I p _ H eq_refl) ]
  | H : nth_error (promises ?s) ?p = Some AwaitConnect |- _ =>
      first [ learn (inv_connect s I p H)
            | learn (inv_pending s I p _ H eq_refl) ]
  | H : nth_error (promises ?s) ?p = Some ?x, H1 : pending ?x = true |- _ =>
      learn (inv_pending s I p x H H1)
  | H : nth_error (callers ?s) ?c = Some (Owner ?p) |- _ =>
      learn (inv_owner s I c p H)
  | H : nth_error (callers ?s) ?c = Some (Returned ?h) |- _ =>
      learn (inv_returned s I c h H)
  | H : nth_error (callers ?s) ?c = Some (Resumed (Fulfilled ?v)) |- _ =>
      learn (inv_resumed s I c v H)
  | H : nth_error (callers ?s) ?c = Some (Following ?p) |- _ =>
      learn (inv_following s I c p H)
  | H : connecting ?s = Some ?p |- _ =>
      learn (inv_marker s I p H)
  | H : nth_error (callers ?s) ?c = Some (Owner ?p),
    H' : nth_error (callers ?s) ?c' = Some (Owner ?p') |- _ =>
      learn (inv_owner_unique s I c c' p p' H H')
  end.

Ltac tidy :=
  repeat match goal with
         | H : _ /\ _ |- _ => destruct H
         | H : Some _ = Some _ |- _ => injection H as H
         | H : Done _ = Done _ |- _ => injection H as H
         | H : Resumed _ = Resumed _ |- _ => injection H as H
         | H : Fulfilled _ = Fulfilled _ |- _ => injection H as H
         | H1 : ?a = Some ?x, H2 : ?a = Some ?y |- _ =>
             assert (x = y) by congruence; clear H2
         end;
  subst; simpl in *.

Ltac finish :=
  try solve [ auto | congruence | lia | discriminate
            | rewrite ?length_app, ?length_upd; simpl; lia
            | split; (congruence || lia)
            | f_equal; lia
            | match goal with
              | H : connects ?s = _, Hc : mongoClient ?s = _ |- _ =>
                  rewrite H in Hc; simpl in Hc; auto
              end ].

Ltac preserve I :=
  constructor; simpl; intros; nth_cases; subst; try discriminate;
  saturate I; tidy; saturate I; tidy; finish.

Lemma call_inv s : Inv s -> Inv (call s).
Proof.
  intros I. unfold call.
  pose proof (inv_connects s I) as Hle. pose proof (inv_client s I) as Hcl.
  destruct (mongoClient s) as [h|] eqn:Hc.
  - destruct (client_of_inv s I h Hc) as [-> H1]. preserve I.
  - pose proof (no_client_of_inv s I Hc) as H0.
    destruct (connecting s) as [p|] eqn:Hm; preserve I.
Qed.

Lemma importDone_inv p ok s : Inv s -> Inv (importDone p ok s).
Proof.
  intros I. unfold importDone.
  pose proof (inv_connects s I) as Hle. pose proof (inv_client s I) as Hcl.
  destruct (nth_error (promises s) p) as [[imp| |r]|] eqn:Hp; try exact I.
  destruct (imp && negb ok); preserve I.
Qed.

Lemma connectDone_inv p ok s : Inv s -> Inv (connectDone p ok s).
Proof.
  intros I. unfold connectDone.
  pose proof (inv_connects s I) as Hle. pose proof (inv_client s I) as Hcl.
  destruct (nth_error (promises s) p) as [[imp| |r]|] eqn:Hp; try exact I.
  destruct ok; preserve I.
Qed.

Lemma resume_inv c s : Inv s -> Inv (resume c s).
Proof.
  intros I. unfold resume.
  pose proof (inv_connects s I) as Hle. pose proof (inv_client s I) as Hcl.
  destruct (nth_error (callers s) c) as [[h|p|p|r]|] eqn:Hc; try exact I.
  destruct (nth_error (promises s) p) as [[imp| |r]|] eqn:Hp; try exact I.
  preserve I.
Qed.

Lemma step_inv s ev : Inv s -> Inv (step s ev).
Proof.
  destruct ev; simpl;
    auto using call_inv, importDone_inv, connectDone_inv, resume_inv.
Qed.

Lemma run_inv tr : forall s, Inv s -> Inv (run tr s).
Proof.
  unfold run. induction tr as [|ev tr IH]; simpl; intros s I; [exact I|].
  apply IH, step_inv, I.
Qed.

Lemma step_noreject s ev :
  ev_ok ev = true -> NoReject s -> NoReject (step s ev).
Proof.
  intros Hok [Hp Hc]. destruct ev as [|p ok|p ok|c]; simpl in *.
  - unfold call. destruct (mongoClient s); [|destruct (connecting s)];
      constructor; simpl; intros q e H; nth_cases; subst;
      try discriminate; try (eapply Hp; eassumption); try (eapply Hc; eassumption).
  - subst ok. unfold importDone.
    destruct (nth_error (promises s) p) as [[imp| |r]|] eqn:E;
      try (constructor; assumption).
    rewrite andb_false_r.
    constructor; simpl; intros q e H; nth_cases; subst;
      try discriminate; try (eapply Hp; eassumption); try (eapply Hc; eassumption).
  - subst ok. unfold connectDone.
    destruct (nth_error (promises s) p) as [[imp| |r]|] eqn:E;
      try (constructor; assumption).
    constructor; simpl; intros q e H; nth_cases; subst;
      try discriminate; try (eapply Hp; eassumption); try (eapply Hc; eassumption).
  - unfold resume.
    destruct (nth_error (callers s) c) as [[h|p|p|r]|] eqn:E;
      try (constructor; assumption).
    destruct (nth_error (promises s) p) as [[imp| |r]|] eqn:E';
      try (constructor; assumption).
    constructor; simpl; intros q e H; nth_cases; subst;
      try discriminate; try (eapply Hp; eassumption); try (eapply Hc; eassumption).
    injection H as <-. eapply Hp; eassumption.
Qed.

Lemma run_noreject tr :
  forall s, forallb ev_ok tr = true -> NoReject s -> NoReject (run tr s).
Proof.
  unfold run. induction tr as [|ev tr IH]; simpl; intros s Hok N; [exact N|].
  apply andb_true_iff in Hok. destruct Hok as [H1 H2].
  apply IH; [exact H2|]. apply step_noreject; assumption.
Qed.

Lemma init_noreject b : NoReject (init b).
Proof. constructor; intros [|q] e; discriminate. Qed.

Lemma outcome_fulfilled s c v :
  Inv s -> outcome s c = Some (Fulfilled v) ->
  v = Some 0%nat /\ connects s = 1%nat.
Proof.
  intros I. unfold outcome.
  destruct (nth_error (callers s) c) as [[h|p|p|r]|] eqn:Hc; try discriminate.
  - intros H. injection H as <-.
    destruct (inv_returned s I c h Hc) as [-> H1]. auto.
  - destruct (nth_error (promises s) p) as [[imp| |r]|] eqn:Hp; try discriminate.
    intros H. injection H as ->. exact (inv_fulfilled s I p v Hp).
  - intros H. injection H as ->. exact (inv_resumed s I c v Hc).
Qed.

Lemma outcome_quiescent s c :
  Inv s -> NoReject s -> quiescent s = true ->
  (c < List.length (callers s))%nat ->
  outcome s c = Some (Fulfilled (Some 0%nat)) /\ connects s = 1%nat.
Proof.
  intros I [Np Nc] Hq Hc. unfold quiescent in Hq.
  apply andb_true_iff in Hq. destruct Hq as [Qp Qc].
  rewrite forallb_forall in Qp, Qc.
  destruct (nth_error (callers s) c) as [x|] eqn:Hx;
    [|apply nth_error_None in Hx; lia].
  pose proof (Qc x (nth_error_In _ _ Hx)) as Hs.
  unfold outcome. rewrite Hx.
  destruct x as [h|p|p|r]; simpl in Hs; try discriminate.
  - destruct (inv_returned s I c h Hx) as [-> H1]. auto.
  - pose proof (inv_following s I c p Hx) as Hlt.
    destruct (nth_error (promises s) p) as [y|] eqn:Hy;
      [|apply nth_error_None in Hy; lia].
    pose proof (Qp y (nth_error_In _ _ Hy)) as Hpend.
    destruct y as [imp| |r]; simpl in Hpend; try discriminate.
    destruct r as [v|e]; [|exfalso; exact (Np p e Hy)].
    destruct (inv_fulfilled s I p v Hy) as [-> H1]. auto.
  - destruct r as [v|e]; [|exfalso; exact (Nc c e Hx)].
    destruct (inv_resumed s I c v Hx) as [-> H1]. auto.
Qed.

(** C4. Whatever the interleaving of calls and completions from a manager
    with no connection: [connect()] is called at most once; at most one
    attempt is in flight at any time; every caller whose promise is
    fulfilled holds the same client, the one that was connected; and when
    no completion fails and nothing is left pending, every caller has been
    fulfilled with that client and [connect()] was called exactly once. *)
Theorem single_flight (tr : list Event) (b : bool) :
  let s := run tr (init b) in
  (connects s <= 1)%nat /\
  (forall p q x y,
      nth_error (promises s) p = Some x -> pending x = true ->
      nth_error (promises s) q = Some y -> pending y = true -> p = q) /\
  (forall c v, outcome s c = Some (Fulfilled v) ->
               v = Some 0%nat /\ connects s = 1%nat) /\
  (forallb ev_ok tr = true -> quiescent s = true ->
   forall c, (c < List.length (callers s))%nat ->
             outcome s c = Some (Fulfilled (Some 0%nat)) /\ connects s = 1%nat).
Proof.
  intros s.
  assert (I : Inv s) by apply run_inv, init_inv.
  split; [exact (inv_connects s I)|].
  split.
  { intros p q x y Hx Px Hy Py.
    pose proof (inv_pending s I p x Hx Px) as H1.
    pose proof (inv_pending s I q y Hy Py) as H2. congruence. }
  split; [intros c v; apply outcome_fulfilled, I|].
  intros Hok Hq c Hc. apply outcome_quiescent; try assumption.
  apply run_noreject; [exact Hok|apply init_noreject].
Qed.

Lemma single_flight_witness :
  let tr := [EvCall; EvCall; EvImport 0 true; EvCall; EvConnect 0 true; EvResume 0] in
  outcome (run tr (init false)) 0 = Some (Fulfilled (Some 0%nat)) /\
  outcome (run tr (init false)) 1 = Some (Fulfilled (Some 0%nat)) /\
  outcome (run tr (init false)) 2 = Some (Fulfilled (Some 0%nat)) /\
  connects (run tr (init false)) = 1%nat.
Proof.
  intros tr.
  destruct (single_flight tr false) as (_ & _ & _ & H).
  specialize (H eq_refl eq_refl).
  destruct (H 0%nat) as [H0 Hn]; [simpl; lia|].
  destruct (H 1%nat) as [H1 _]; [simpl; lia|].
  destruct (H 2%nat) as [H2 _]; [simpl; lia|].
  repeat split; assumption.
Defined.

Lemma nth_snoc_last {A} (l : list A) x : nth_error (l ++ [x]) (List.length l) = Some x.
Proof. rewrite nth_error_app2 by lia. rewrite Nat.sub_diag. reflexivity. Qed.

Lemma upd_snoc {A} (l : list A) x y : upd (List.length l) y (l ++ [x]) = l ++ [y].
Proof. induction l as [|z l IH]; simpl; [reflexivity|]. rewrite IH. reflexivity. Qed.

Lemma step_connects_mono s ev : (connects s <= connects (step s ev))%nat.
Proof.
  destruct ev as [|p ok|p ok|c]; simpl.
  - unfold call. destruct (mongoClient s); [|destruct (connecting s)]; simpl; lia.
  - unfold importDone. destruct (nth_error (promises s) p) as [[imp| |r]|]; try lia.
    destruct (imp && negb ok); simpl; lia.
  - unfold connectDone. destruct (nth_error (promises s) p) as [[imp| |r]|]; try lia.
    destruct ok; simpl; lia.
  - unfold resume. destruct (nth_error (callers s) c) as [[h|p|p|r]|]; try lia.
    destruct (nth_error (promises s) p) as [[imp| |r]|]; simpl; lia.
Qed.

Lemma run_connects_mono tr : forall s, (connects s <= connects (run tr s))%nat.
Proof.
  unfold run. induction tr as [|ev tr IH]; simpl; intros s; [lia|].
  pose proof (step_connects_mono s ev). pose proof (IH (step s ev)). lia.
Qed.

Lemma run_app tr1 tr2 s : run (tr1 ++ tr2) s = run tr2 (run tr1 s).
Proof. unfold run. apply fold_left_app. Qed.

(** C2. The claim wants a rejected [connect()] to leave the manager as if
    never connected.  The marker is cleared, but [this.mongoClient] was
    assigned on line 98, before the [await] of line 99, and nothing resets
    it: the caller is rejected, the next call returns the client that never
    connected, no new promise is made, and [connect()] is never called
    again. *)
Theorem failed_connect_keeps_stale_handle (b : bool) :
  let s := run [EvCall; EvImport 0 true; EvConnect 0 false; EvResume 0] (init b) in
  outcome s 0 = Some (Rejected ConnectionError) /\
  connecting s = None /\
  mongoClient s = Some 0%nat /\
  outcome (step s EvCall) 1 = Some (Fulfilled (Some 0%nat)) /\
  promises (step s EvCall) = promises s /\
  (forall tr, connects (run tr s) = 1%nat).
Proof.
  intros s.
  assert (E : connects s = 1%nat) by (destruct b; reflexivity).
  repeat split; try (destruct b; reflexivity).
  intros tr.
  pose proof (run_connects_mono tr s) as Hge.
  assert (I : Inv (run tr s)) by (apply run_inv, run_inv, init_inv).
  pose proof (inv_connects _ I). lia.
Qed.

(** X25. A call that overlaps no other goes through the machine as [call],
    the two completions and [resume]; what it leaves is what the
    one-call-at-a-time [ensureConnected] computes. *)
Lemma ensureConnected_alone (o : Oracle) (q : State) (s : Conn) :
  connecting s = None ->
  view s = connView q ->
  let c := List.length (callers s) in
  let p := List.length (promises s) in
  let s' := run [EvCall; EvImport p (importOk o (nImport q));
                 EvConnect p (connectOk o (nConnect q)); EvResume c] s in
  let res := ensureConnected o q in
  view s' = connView (snd res) /\
  connecting s' = None /\
  outcome s' c = Some (settled_of (fst res)).
Proof.
  destruct s as [mc cg mi ps cs n]. destruct q as [ca mc' mi' tk n1 n2 n3 n4 n5 n6].
  unfold view, connView. simpl. intros -> H. injection H as -> -> ->.
  assert (E : nth_error ps (List.length ps) = None)
    by (apply nth_error_None; lia).
  unfold run, ensureConnected, getMongoClient, newClient, connect, bind, gets, ret.
  destruct (importOk o n2) eqn:Ei; destruct (connectOk o n3) eqn:Ec;
    destruct mc' as [h|]; destruct mi';
    repeat progress
      (cbn;
       unfold call, importDone, connectDone, resume, outcome, add_caller, set_promise;
       cbn; rewrite ?nth_snoc_last, ?upd_snoc, ?E, ?Ei, ?Ec);
    auto.
Qed.

(** A caller that arrives while [connect()] is in flight does not wait for
    it: line 93 hands it the stored client at once. *)
Remark caller_during_connect_is_served_early (b : bool) :
  let s := run [EvCall; EvImport 0 true; EvCall] (init b) in
  nth_error (promises s) 0 = Some AwaitConnect /\
  outcome s 0 = None /\
  outcome s 1 = Some (Fulfilled (Some 0)).
Proof. destruct b; repeat split. Qed.

End SingleFlightFacts.

(** * Further properties of the manager *)

(** ** [updateOne] and the other records *)

Lemma updateOne_keys cid f l :
  (forall d, companyId (f d) = companyId d) ->
  map companyId (updateOne cid f l) = map companyId l.
Proof.
  intros Hk. induction l as [|x l IH]; [reflexivity|].
  cbn [updateOne]. destruct (matches cid x); cbn [map].
  - rewrite Hk. reflexivity.
  - rewrite IH. reflexivity.
Qed.

Lemma updateOne_other cid f l i d :
  nth_error l i = Some d -> companyId d <> cid ->
  nth_error (updateOne cid f l) i = Some d.
Proof.
  revert i. induction l as [|x l IH]; intros [|i]; cbn [nth_error updateOne];
    try discriminate.
  - intros H Hn. injection H as ->.
    assert (E : matches cid d = false).
    { unfold matches. apply String.eqb_neq. exact Hn. }
    rewrite E. reflexivity.
  - intros H Hn. destruct (matches cid x); cbn [nth_error]; auto.
Qed.

#[global] Arguments or_str : simpl never.
#[global] Arguments findOne : simpl never.
#[global] Arguments updateOne : simpl never.
#[global] Arguments applySet : simpl never.

(** Case analysis along the control flow: the innermost test first. *)
Ltac split_path :=
  match goal with
  | |- context [match ?x with _ => _ end] =>
      lazymatch x with
      | context [match _ with _ => _ end] => fail
      | _ => destruct x eqn:?
      end
  end.

Ltac paths := js_unfold; cbn; repeat (split_path; cbn).

(** ** What one call may do *)

(** X1. One call of [getAccessToken] posts to the endpoint at most twice,
    reads the store at most once, writes it at most once, and opens at
    most one connection after at most one import. *)
Theorem getAccessToken_io_bounds (o : Oracle) (cid : string) (s : State) :
  let s' := snd (getAccessToken o cid s) in
  (nPost s <= nPost s' <= nPost s + 2)%nat /\
  (nFind s <= nFind s' <= nFind s + 1)%nat /\
  (nUpdate s <= nUpdate s' <= nUpdate s + 1)%nat /\
  (nConnect s <= nConnect s' <= nConnect s + 1)%nat /\
  (nImport s <= nImport s' <= nImport s + 1)%nat.
Proof.
  destruct s as [c mc mi tk n1 n2 n3 n4 n5 n6].
  paths; lia.
Qed.

(** X2. A call that throws throws the import error, a connection error,
    the not-found error, the endpoint's rejection or the TypeError of line
    156, never the write error; the TypeError only when some POST came back
    2xx with a null body; and it leaves the cache and the store as they
    were. *)
Theorem failed_call_keeps_cache_and_store
        (o : Oracle) (cid : string) (s : State) (e : Error) :
  fst (getAccessToken o cid s) = Throw e ->
  (e = DriverMissing \/ e = ConnectionError \/ e = NotFoundError \/
   e = RefreshError \/ e = BodyTypeError) /\
  (e = BodyTypeError ->
   exists n rt, post o n rt = None /\ nullBody o n rt = true) /\
  cache (snd (getAccessToken o cid s)) = cache s /\
  tokens (snd (getAccessToken o cid s)) = tokens s.
Proof.
  destruct s as [c mc mi tk n1 n2 n3 n4 n5 n6].
  paths; intros H; try discriminate H; injection H as <-;
    (split; [auto 8|]);
    (split; [intros E; try discriminate E; eauto|auto]).
Qed.

Lemma failed_call_keeps_cache_and_store_witness :
  let s := Sample.cached Sample.entry100 [] in
  cache (snd (getAccessToken (Sample.oracle 50000 None) Sample.acct s)) = cache s.
Proof.
  intros s.
  apply (failed_call_keeps_cache_and_store
           (Sample.oracle 50000 None) Sample.acct s NotFoundError).
  reflexivity.
Defined.

(** ** The cache after a call *)

Lemma getAccessToken_caches_result (o : Oracle) (cid : string) (s : State)
      (tok : option string) :
  fst (getAccessToken o cid s) = Ok tok ->
  accessToken_of (cache (snd (getAccessToken o cid s))) = Some tok.
Proof.
  destruct s as [c mc mi tk n1 n2 n3 n4 n5 n6].
  paths; intros H; try discriminate H; injection H as <-; try reflexivity.
  all: match goal with H : _ = Some _ |- _ => try (rewrite H; reflexivity) end.
Qed.

(** X3. After a call that returns, the cache holds the token returned; and
    a second call, made while that entry is younger than the TTL and more
    than 60 s from its expiry, returns the same token after two clock
    reads and nothing else. *)
Theorem next_call_is_served_from_cache
        (o : Oracle) (cid : string) (s : State) (tok : option string) :
  fst (getAccessToken o cid s) = Ok tok ->
  let s' := snd (getAccessToken o cid s) in
  accessToken_of (cache s') = Some tok /\
  (forall c',
      cache s' = Some c' ->
      isFresh (clock o (nClock s')) c' = true ->
      cacheNeedsRefresh (clock o (S (nClock s'))) (expiresAt c') = false ->
      getAccessToken o cid s' = (Ok tok, tick_clock (tick_clock s'))).
Proof.
  intros H s'. pose proof (getAccessToken_caches_result o cid s tok H) as Hc.
  fold s' in Hc. split; [exact Hc|].
  intros c' Hc' Hf Hv. rewrite Hc' in Hc. cbn in Hc. injection Hc as <-.
  rewrite getAccessToken_cachePath, (cachePath_hit o cid s' c' Hc' Hf Hv).
  reflexivity.
Qed.

Lemma next_call_is_served_from_cache_witness :
  let o := Sample.oracle 1000 None in
  let s' := snd (getAccessToken o Sample.acct (Sample.fresh [Sample.doc100])) in
  getAccessToken o Sample.acct s' = (Ok (Some "tok"), tick_clock (tick_clock s')).
Proof.
  intros o s'.
  destruct (next_call_is_served_from_cache
              o Sample.acct (Sample.fresh [Sample.doc100]) (Some "tok") eq_refl)
    as [_ H].
  apply (H (mkCached (Some "tok") (Some "rt") 100000 1000)); reflexivity.
Defined.

(** X4. A cache entry aged 20 minutes or more is not served and its
    refresh token is not used, however long its token is still valid: after
    the one clock read the call is [readTokenFromDb]; so when the store cannot
    be connected the call fails. *)
Theorem stale_cache_is_ignored
        (o : Oracle) (cid : string) (s : State) (c : CachedToken) :
  cache s = Some c ->
  clock o (nClock s) - fetchedAt c >= 20 * 60 * 1000 ->
  getAccessToken o cid s = readTokenFromDb o cid (tick_clock s) /\
  (canConnect o s = false ->
   fst (getAccessToken o cid s) = Throw DriverMissing \/
   fst (getAccessToken o cid s) = Throw ConnectionError).
Proof.
  intros Hc Hage.
  assert (Hf : isFresh (clock o (nClock s)) c = false).
  { destruct (isFresh (clock o (nClock s)) c) eqn:E; [|reflexivity].
    apply isFresh_iff in E. lia. }
  assert (Hg : getAccessToken o cid s = readTokenFromDb o cid (tick_clock s)).
  { rewrite getAccessToken_cachePath.
    unfold cachePath, bind, gets, ret, dateNow. rewrite Hc. cbn. rewrite Hf.
    reflexivity. }
  split; [exact Hg|].
  intros Hn. rewrite Hg. unfold readTokenFromDb, bind.
  destruct (ensureConnected o (tick_clock s)) as [[h|e] s1] eqn:He;
    apply ensureConnected_result in He; destruct He as [_ Hr].
  - change (canConnect o s = true) in Hr. congruence.
  - cbn. destruct Hr as [_ [->| ->]]; auto.
Qed.

Lemma stale_cache_is_ignored_witness :
  let o := Sample.oracle 1200000 None in
  let s := Sample.cached Sample.entry100 [] in
  getAccessToken o Sample.acct s = readTokenFromDb o Sample.acct (tick_clock s).
Proof.
  intros o s.
  apply (stale_cache_is_ignored o Sample.acct s Sample.entry100);
    [reflexivity|vm_compute; discriminate].
Defined.

(** ** The connection across calls *)

(** X5. Once a client is stored, a call neither imports nor connects: the
    client, the import flag and both counters are as before. *)
Theorem stored_client_is_reused
        (o : Oracle) (cid : string) (s : State) (h : Handle) :
  mongoClient s = Some h ->
  let s' := snd (getAccessToken o cid s) in
  mongoClient s' = Some h /\ mongoImported s' = mongoImported s /\
  nConnect s' = nConnect s /\ nImport s' = nImport s.
Proof.
  destruct s as [c mc mi tk n1 n2 n3 n4 n5 n6]. cbn. intros ->.
  paths; auto.
Qed.

Lemma stored_client_is_reused_witness :
  let o := Sample.oracle 1000 None in
  let s := snd (getAccessToken o Sample.acct (Sample.fresh [Sample.doc100])) in
  nConnect (snd (getAccessToken o Sample.acct s)) = nConnect s.
Proof.
  intros o s.
  apply (stored_client_is_reused o Sample.acct s 0%nat). reflexivity.
Defined.

(** X6. A failing import leaves no client behind: the call throws
    [DriverMissing] without connecting or reading, and the next attempt to
    connect imports again. *)
Theorem failed_import_is_retried (o : Oracle) (cid : string) (s : State) :
  cacheMiss o s = true ->
  mongoClient s = None -> mongoImported s = false ->
  importOk o (nImport s) = false ->
  let s' := snd (getAccessToken o cid s) in
  fst (getAccessToken o cid s) = Throw DriverMissing /\
  mongoClient s' = None /\ mongoImported s' = false /\
  nImport s' = S (nImport s) /\ nConnect s' = nConnect s /\ nFind s' = nFind s /\
  canConnect o s' = importOk o (S (nImport s)) && connectOk o (nConnect s).
Proof.
  destruct s as [c mc mi tk n1 n2 n3 n4 n5 n6]. unfold cacheMiss, canConnect. cbn.
  intros Hm -> -> Hi.
  destruct c as [c|]; js_unfold; cbn.
  - apply negb_true_iff in Hm. rewrite Hm. cbn. rewrite Hi. cbn. auto 10.
  - rewrite Hi. cbn. auto 10.
Qed.

Lemma failed_import_is_retried_witness :
  let o := mkOracle (fun _ => 0) (fun n => negb (n =? 0)%nat) (fun _ => true)
                    (fun _ => true) (fun _ => true) (fun _ _ => None)
                    (fun _ _ => false) in
  let s := Sample.fresh [Sample.doc100] in
  fst (getAccessToken o Sample.acct s) = Throw DriverMissing /\
  canConnect o (snd (getAccessToken o Sample.acct s)) = true.
Proof.
  intros o s.
  destruct (failed_import_is_retried o Sample.acct s eq_refl eq_refl eq_refl eq_refl)
    as (H1 & _ & _ & _ & _ & _ & H7).
  split; [exact H1|rewrite H7; reflexivity].
Defined.

(** ** The collection across calls *)

(** A call leaves the collection alone or applies one [$set] to it. *)
Lemma getAccessToken_tokens (o : Oracle) (cid : string) (s : State) :
  tokens (snd (getAccessToken o cid s)) = tokens s \/
  exists a rt e u,
    tokens (snd (getAccessToken o cid s)) =
      updateOne cid (applySet a rt e u) (tokens s).
Proof.
  destruct s as [c mc mi tk n1 n2 n3 n4 n5 n6].
  paths; try (left; reflexivity); right; do 4 eexists; reflexivity.
Qed.

(** X7. A call inserts no record, deletes none and changes no key; every
    record of another account is afterwards where and what it was. *)
Theorem other_records_are_untouched (o : Oracle) (cid : string) (s : State) :
  let s' := snd (getAccessToken o cid s) in
  map companyId (tokens s') = map companyId (tokens s) /\
  (forall i d, nth_error (tokens s) i = Some d -> companyId d <> cid ->
               nth_error (tokens s') i = Some d).
Proof.
  intros s'. subst s'.
  destruct (getAccessToken_tokens o cid s) as [->|(a & rt & e & u & ->)].
  - split; auto.
  - split.
    + apply updateOne_keys. intros d. reflexivity.
    + intros i d H Hn. apply updateOne_other; assumption.
Qed.

Lemma other_records_are_untouched_witness :
  let other := mkDoc "Y" (Some "t") (Some "r") (Some 1) (Some 0) in
  let s := Sample.fresh [other; Sample.doc100] in
  nth_error (tokens (snd (getAccessToken (Sample.oracle 50000 (Some Sample.respNew))
                                         Sample.acct s))) 0 = Some other.
Proof.
  intros other s.
  apply (other_records_are_untouched (Sample.oracle 50000 (Some Sample.respNew))
                                     Sample.acct s);
    [reflexivity|discriminate].
Defined.

(** ** What a refresh leaves *)

Lemma refreshWith_counters_ok o cid r rt s :
  canConnect o s = true -> updateOk o (nUpdate s) = true ->
  nClock (snd (refreshWith o cid r rt s)) = S (S (nClock s)) /\
  nFind (snd (refreshWith o cid r rt s)) = nFind s.
Proof.
  destruct s as [c mc mi tk n1 n2 n3 n4 n5 n6]. unfold canConnect. cbn.
  intros Hc Hu. js_unfold. cbn.
  destruct mc as [h|]; cbn.
  - rewrite Hu. cbn. auto.
  - destruct mi; cbn in *.
    + rewrite Hc. cbn. rewrite Hu. cbn. auto.
    + apply andb_true_iff in Hc. destruct Hc as [Hi Hc].
      rewrite Hi. cbn. rewrite Hc. cbn. rewrite Hu. cbn. auto.
Qed.

(** X8. A 2xx answer whose [refresh_token] is missing or empty does not
    rotate the refresh token: the cache keeps the one that was sent, and so
    does the record when it is written; a non-empty one replaces it in
    both. *)
Theorem refresh_token_rotates_only_when_present
        (o : Oracle) (cid : string) (s : State) (rt : option string)
        (r : RefreshResponse) (d0 : TokenDocument) :
  post o (nPost s) rt = Some r ->
  canConnect o s = true -> updateOk o (nUpdate s) = true ->
  findOne cid (tokens s) = Some d0 ->
  let s' := snd (refreshToken o cid rt s) in
  let kept := if truthy_str (r_refresh_token r) then r_refresh_token r else rt in
  (exists c, cache s' = Some c /\ refreshToken_ c = kept) /\
  (exists d, findOne cid (tokens s') = Some d /\ refresh_token d = kept) /\
  (truthy_str (r_refresh_token r) = false -> kept = rt) /\
  (forall n, r_refresh_token r = Some n -> n <> "" -> kept = Some n).
Proof.
  intros Hp Hc Hu Hd s' kept. subst s'.
  rewrite (refreshToken_post_ok o cid rt r s Hp).
  destruct (refreshWith_returns o cid r rt (tick_post s)) as (_ & Hcache & _).
  pose proof (refreshWith_tokens_ok o cid r rt (tick_post s) Hc Hu) as Ht.
  split; [eexists; split; [exact Hcache|reflexivity]|].
  split.
  - eexists. split.
    + rewrite Ht. apply findOne_updateOne_some; [exact Hd|reflexivity].
    + reflexivity.
  - subst kept. split.
    + intros ->. reflexivity.
    + intros n -> Hn. cbn. apply String.eqb_neq in Hn. rewrite Hn. reflexivity.
Qed.

Lemma refresh_token_rotates_only_when_present_witness :
  let o := Sample.oracle 1000 (Some Sample.respZero) in
  let s' := snd (refreshToken o Sample.acct (Some "rt") (Sample.fresh [Sample.doc100])) in
  exists d, findOne Sample.acct (tokens s') = Some d /\ refresh_token d = Some "rt".
Proof.
  intros o s'.
  destruct (refresh_token_rotates_only_when_present
              o Sample.acct (Sample.fresh [Sample.doc100]) (Some "rt")
              Sample.respZero Sample.doc100 eq_refl eq_refl eq_refl eq_refl)
    as (_ & Hd & _).
  exact Hd.
Defined.

(** X9. A token refreshed and written by one manager is served to another:
    a manager constructed afterwards, reading the store no later than 60 s
    before the written record's expiry, returns the refreshed access token
    and posts nothing. *)
Theorem refreshed_token_reaches_a_new_manager
        (o : Oracle) (cid : string) (s : State) (rt : option string)
        (r : RefreshResponse) (d0 : TokenDocument) :
  post o (nPost s) rt = Some r ->
  canConnect o s = true -> updateOk o (nUpdate s) = true ->
  findOne cid (tokens s) = Some d0 ->
  let s' := snd (refreshToken o cid rt s) in
  let u := clock o (S (nClock s)) in
  canConnect o (construct s') = true ->
  findOk o (nFind s) = true ->
  clock o (S (S (nClock s))) <= u + lifetime (r_expires_in r) * 1000 - 60000 ->
  fst (getAccessToken o cid (construct s')) = Ok (r_access_token r) /\
  nPost (snd (getAccessToken o cid (construct s'))) = nPost s' /\
  (exists c, cache (snd (getAccessToken o cid (construct s'))) = Some c /\
             expiresAt c = u + lifetime (r_expires_in r) * 1000).
Proof.
  intros Hp Hc Hu Hd s' u Hc2 Hf Hclk.
  assert (Hs' : s' = snd (refreshWith o cid r rt (tick_post s)))
    by (unfold s'; rewrite (refreshToken_post_ok o cid rt r s Hp); reflexivity).
  pose proof (refreshWith_tokens_ok o cid r rt (tick_post s) Hc Hu) as Ht.
  destruct (refreshWith_counters_ok o cid r rt (tick_post s) Hc Hu) as [Hn Hnf].
  rewrite <- Hs' in Ht, Hn, Hnf. cbn [nClock nFind tick_post] in Ht, Hn, Hnf.
  set (d := written r rt u d0).
  assert (Hd' : findOne cid (tokens (construct s')) = Some d).
  { cbn. rewrite Ht. apply findOne_updateOne_some; [exact Hd|reflexivity]. }
  assert (Hf' : findOk o (nFind (construct s')) = true)
    by (cbn; rewrite Hnf; exact Hf).
  rewrite getAccessToken_cachePath.
  assert (Hcp : cachePath o cid (construct s') = (Ok None, construct s'))
    by reflexivity.
  rewrite Hcp.
  destruct (readTokenFromDb_found o cid (construct s') d Hc2 Hf' Hd')
    as (s1 & F & ->).
  destruct F as (_ & _ & Hn1 & _ & _ & Hq).
  assert (He : dbExpired o (nClock (tick_find s1)) d = false).
  { unfold dbExpired, loadNow, loadUpd, docExpiresAt, d, written, applySet.
    cbn. rewrite Hn1. cbn. rewrite Hn, lifetime_idem.
    apply dbNeedsRefresh_false_iff. exact Hclk. }
  destruct (loadDoc_valid o cid d (tick_find s1) He) as (H1 & H2 & _ & H4).
  split; [exact H1|]. split; [rewrite H4; cbn; exact Hq|].
  eexists. split; [exact H2|].
  unfold docExpiresAt, loadUpd, d, written, applySet. cbn.
  rewrite lifetime_idem. reflexivity.
Qed.

Lemma refreshed_token_reaches_a_new_manager_witness :
  let o := Sample.oracle 1000 (Some Sample.respNew) in
  let s' := snd (refreshToken o Sample.acct (Some "rt") (Sample.fresh [Sample.doc100])) in
  fst (getAccessToken o Sample.acct (construct s')) = Ok (Some "new").
Proof.
  intros o s'.
  apply (refreshed_token_reaches_a_new_manager
           o Sample.acct (Sample.fresh [Sample.doc100]) (Some "rt")
           Sample.respNew Sample.doc100);
    try reflexivity.
  vm_compute. discriminate.
Defined.

Lemma ensureConnected_ok_client o s v s' :
  ensureConnected o s = (Ok v, s') -> canConnect o s' = true.
Proof.
  destruct s as [c mc mi tk n1 n2 n3 n4 n5 n6]. js_unfold. cbn.
  destruct mc as [h|]; cbn.
  - intros H. injection H as _ <-. reflexivity.
  - destruct mi; cbn; [|destruct (importOk o n2); cbn];
      try destruct (connectOk o n3); cbn;
      intros H; try discriminate H; injection H as _ <-; reflexivity.
Qed.

(** X10. A stored record near or past its expiry is refreshed with its own
    refresh token: when the endpoint answers and the write succeeds, the
    call returns the new access token, caches the refreshed entry and
    leaves the record rewritten with the new tokens, the effective lifetime
    and the write instant. *)
Theorem expired_record_is_refreshed_and_persisted
        (o : Oracle) (cid : string) (s s1 : State) (d : TokenDocument)
        (r : RefreshResponse) :
  cachePath o cid s = (Ok None, s1) ->
  canConnect o s1 = true -> findOk o (nFind s1) = true ->
  findOne cid (tokens s1) = Some d ->
  dbExpired o (nClock s1) d = true ->
  post o (nPost s1) (refresh_token d) = Some r ->
  updateOk o (nUpdate s1) = true ->
  let n := nClock (loadState d s1) in
  let s' := snd (getAccessToken o cid s) in
  fst (getAccessToken o cid s) = Ok (r_access_token r) /\
  cache s' = Some (refreshedEntry r (refresh_token d) (clock o n)) /\
  findOne cid (tokens s') =
    Some (written r (refresh_token d) (clock o (S n)) d).
Proof.
  intros Hcp Hc Hf Hd He Hp Hu n s'. subst s'.
  rewrite getAccessToken_cachePath, Hcp.
  unfold readTokenFromDb, bind.
  destruct (ensureConnected o s1) as [[h|e] s2] eqn:Hec.
  2:{ apply ensureConnected_result in Hec. destruct Hec as [_ [Hn _]]. congruence. }
  pose proof (ensureConnected_ok_client o s1 h s2 Hec) as Hc2.
  apply ensureConnected_result in Hec. destruct Hec as [F _].
  destruct F as (_ & Ht2 & Hn & Hf2 & Hu2 & Hq).
  unfold dbFindOne. rewrite Hf2, Hf, Ht2, Hd.
  rewrite loadDoc_expired by (cbn; rewrite Hn; exact He).
  set (s3 := loadState d (tick_find s2)).
  assert (E : nPost s3 = nPost s1 /\ nUpdate s3 = nUpdate s1 /\
              tokens s3 = tokens s1 /\ nClock s3 = n /\ canConnect o s3 = true).
  { unfold s3, n, loadState, canConnect in *.
    destruct (updatedAt d); cbn; rewrite Hq, Hu2, Ht2, Hn; auto. }
  destruct E as (E1 & E2 & E3 & E4 & E5).
  rewrite (refreshToken_post_ok o cid (refresh_token d) r s3)
    by (rewrite E1; exact Hp).
  destruct (refreshWith_returns o cid r (refresh_token d) (tick_post s3))
    as (H1 & H2 & _).
  assert (Hu3 : updateOk o (nUpdate (tick_post s3)) = true)
    by (cbn; rewrite E2; exact Hu).
  pose proof (refreshWith_tokens_ok o cid r (refresh_token d) (tick_post s3) E5 Hu3)
    as Ht.
  cbn [nClock tick_post tokens] in H2, Ht. rewrite E4 in H2, Ht. rewrite E3 in Ht.
  repeat split; [exact H1|exact H2|].
  rewrite Ht. apply findOne_updateOne_some; [exact Hd|reflexivity].
Qed.

Lemma expired_record_is_refreshed_and_persisted_witness :
  let o := Sample.oracle 7200000 (Some Sample.respNew) in
  let s := Sample.fresh [Sample.doc100] in
  fst (getAccessToken o Sample.acct s) = Ok (Some "new") /\
  findOne Sample.acct (tokens (snd (getAccessToken o Sample.acct s))) =
    Some (mkDoc Sample.acct (Some "new") (Some "rt2") (Some 3600) (Some 7200000)).
Proof.
  intros o s.
  destruct (expired_record_is_refreshed_and_persisted
              o Sample.acct s s Sample.doc100 Sample.respNew
              eq_refl eq_refl eq_refl eq_refl eq_refl eq_refl eq_refl)
    as (H1 & _ & H3).
  split; [exact H1|exact H3].
Defined.

(** ** The age of the cache entry *)

(** X11. With a clock that does not run backwards, [fetchedAt] never
    decreases and the cache is never emptied: if the entry was fetched no
    later than the current reading, then after any call there is an entry,
    fetched no earlier than the old one and no later than the reading
    then. *)
Theorem fetchedAt_never_decreases
        (o : Oracle) (cid : string) (s : State) (c : CachedToken) :
  (forall n, clock o n <= clock o (S n)) ->
  cache s = Some c ->
  fetchedAt c <= clock o (nClock s) ->
  let s' := snd (getAccessToken o cid s) in
  exists c', cache s' = Some c' /\
             fetchedAt c <= fetchedAt c' /\
             fetchedAt c' <= clock o (nClock s').
Proof.
  destruct s as [c0 mc mi tk n1 n2 n3 n4 n5 n6]. cbn.
  intros Hm -> Hle.
  pose proof (Hm n1) as M1. pose proof (Hm (S n1)) as M2.
  pose proof (Hm (S (S n1))) as M3. pose proof (Hm (S (S (S n1)))) as M4.
  pose proof (Hm (S (S (S (S n1))))) as M5.
  pose proof (Hm (S (S (S (S (S n1)))))) as M6.
  pose proof (Hm (S (S (S (S (S (S n1))))))) as M7.
  paths; eexists; (split; [reflexivity|]); cbn; lia.
Qed.

Lemma fetchedAt_never_decreases_witness :
  let o := Sample.oracle 50000 (Some Sample.respNew) in
  let s := Sample.cached Sample.entry100 [Sample.doc100] in
  exists c', cache (snd (getAccessToken o Sample.acct s)) = Some c' /\
             0 <= fetchedAt c' /\ fetchedAt c' <= 50000.
Proof.
  intros o s.
  apply (fetchedAt_never_decreases o Sample.acct s Sample.entry100).
  - intros n. cbn. lia.
  - reflexivity.
  - cbn. lia.
Defined.

(** ** The three outcomes of the decision procedure *)

Lemma refreshToken_reads_nothing o cid rt s :
  nFind (snd (refreshToken o cid rt s)) = nFind s /\
  (nPost (snd (refreshToken o cid rt s)) = S (nPost s)).
Proof.
  destruct s as [c mc mi tk n1 n2 n3 n4 n5 n6].
  paths; auto.
Qed.

(** X12. A fresh cache entry whose token is within 60 s of expiry, or past
    it, is refreshed with the cached refresh token: when the endpoint
    answers, the call returns the new token after exactly one POST and
    without reading the store, caches the refreshed entry, and rewrites the
    record when the write-through succeeds. *)
Theorem cached_token_near_expiry_is_refreshed
        (o : Oracle) (cid : string) (s : State) (c : CachedToken)
        (r : RefreshResponse) :
  cache s = Some c ->
  isFresh (clock o (nClock s)) c = true ->
  cacheNeedsRefresh (clock o (S (nClock s))) (expiresAt c) = true ->
  post o (nPost s) (refreshToken_ c) = Some r ->
  let s' := snd (getAccessToken o cid s) in
  fst (getAccessToken o cid s) = Ok (r_access_token r) /\
  cache s' = Some (refreshedEntry r (refreshToken_ c) (clock o (S (S (nClock s))))) /\
  nPost s' = S (nPost s) /\ nFind s' = nFind s /\
  (canConnect o s = true -> updateOk o (nUpdate s) = true ->
   tokens s' = updateOne cid (written r (refreshToken_ c)
                                       (clock o (S (S (S (nClock s))))))
                         (tokens s)).
Proof.
  intros Hc Hf Hn Hp s'. subst s'.
  rewrite getAccessToken_cachePath, (cachePath_refresh o cid s c Hc Hf Hn).
  set (s2 := tick_clock (tick_clock s)).
  assert (Hp2 : post o (nPost s2) (refreshToken_ c) = Some r) by exact Hp.
  destruct (refreshToken_reads_nothing o cid (refreshToken_ c) s2) as [Rf Rp].
  pose proof (refreshToken_post_ok o cid (refreshToken_ c) r s2 Hp2) as E.
  destruct (refreshWith_returns o cid r (refreshToken_ c) (tick_post s2))
    as (H1 & H2 & _).
  assert (Ht : canConnect o s = true -> updateOk o (nUpdate s) = true ->
               tokens (snd (refreshToken o cid (refreshToken_ c) s2)) =
               updateOne cid (written r (refreshToken_ c)
                                      (clock o (S (S (S (nClock s))))))
                         (tokens s)).
  { intros Hcn Hu. rewrite E.
    exact (refreshWith_tokens_ok o cid r (refreshToken_ c) (tick_post s2) Hcn Hu). }
  rewrite <- E in H1, H2.
  destruct (refreshToken o cid (refreshToken_ c) s2) as [[tok|e] s3];
    cbn in *; [|discriminate].
  injection H1 as ->. repeat split; auto.
Qed.

Lemma cached_token_near_expiry_is_refreshed_witness :
  let o := Sample.oracle 50000 (Some Sample.respNew) in
  let s := Sample.cached Sample.entry100 [Sample.doc100] in
  fst (getAccessToken o Sample.acct s) = Ok (Some "new") /\
  nFind (snd (getAccessToken o Sample.acct s)) = 0%nat.
Proof.
  intros o s.
  destruct (cached_token_near_expiry_is_refreshed
              o Sample.acct s Sample.entry100 Sample.respNew
              eq_refl eq_refl eq_refl eq_refl) as (H1 & _ & _ & H4 & _).
  split; [exact H1|exact H4].
Defined.

(** X13. On the store path a record more than 60 s from its expiry is
    served as it is: the call returns its access token, caches it with the
    record's expiry, posts nothing and writes nothing. *)
Theorem valid_record_is_cached_and_returned
        (o : Oracle) (cid : string) (s s1 : State) (d : TokenDocument) :
  cachePath o cid s = (Ok None, s1) ->
  canConnect o s1 = true -> findOk o (nFind s1) = true ->
  findOne cid (tokens s1) = Some d ->
  dbExpired o (nClock s1) d = false ->
  let s' := snd (getAccessToken o cid s) in
  fst (getAccessToken o cid s) = Ok (access_token d) /\
  cache s' = Some (mkCached (access_token d) (refresh_token d)
                            (docExpiresAt d (loadUpd o (nClock s1) d))
                            (clock o (nClock (loadState d s1)))) /\
  nPost s' = nPost s1 /\ tokens s' = tokens s.
Proof.
  intros Hcp Hc Hf Hd He s'. subst s'.
  destruct (cachePath_fallthrough o cid s s1 Hcp) as (Ht & _ & _).
  rewrite getAccessToken_cachePath, Hcp.
  destruct (readTokenFromDb_found o cid s1 d Hc Hf Hd) as (s2 & F & ->).
  destruct F as (_ & Ht2 & Hn & _ & _ & Hq).
  assert (He2 : dbExpired o (nClock (tick_find s2)) d = false)
    by (cbn; rewrite Hn; exact He).
  destruct (loadDoc_valid o cid d (tick_find s2) He2) as (H1 & H2 & H3 & H4).
  repeat split.
  - exact H1.
  - rewrite H2. unfold loadState. destruct (updatedAt d); cbn; rewrite Hn; reflexivity.
  - rewrite H4. cbn. exact Hq.
  - rewrite H3. cbn. congruence.
Qed.

Lemma valid_record_is_cached_and_returned_witness :
  let o := Sample.oracle 1000 None in
  let s := Sample.fresh [Sample.doc100] in
  fst (getAccessToken o Sample.acct s) = Ok (Some "tok") /\
  nPost (snd (getAccessToken o Sample.acct s)) = 0%nat.
Proof.
  intros o s.
  destruct (valid_record_is_cached_and_returned
              o Sample.acct s s Sample.doc100 eq_refl eq_refl eq_refl eq_refl eq_refl)
    as (H1 & _ & H3 & _).
  split; [exact H1|exact H3].
Defined.

(** X14. On the store path a store that cannot be used is the caller's
    error: a failing import or connect is rethrown, and a rejected
    [findOne] is a [ConnectionError]; no POST is made and the cache
    is not consulted again. *)
Theorem store_failure_is_propagated
        (o : Oracle) (cid : string) (s s1 : State) :
  cachePath o cid s = (Ok None, s1) ->
  (canConnect o s1 = false ->
   (fst (getAccessToken o cid s) = Throw DriverMissing \/
    fst (getAccessToken o cid s) = Throw ConnectionError) /\
   nFind (snd (getAccessToken o cid s)) = nFind s1) /\
  (canConnect o s1 = true -> findOk o (nFind s1) = false ->
   fst (getAccessToken o cid s) = Throw ConnectionError) /\
  (canConnect o s1 = false \/ findOk o (nFind s1) = false ->
   nPost (snd (getAccessToken o cid s)) = nPost s1).
Proof.
  intros Hcp. rewrite getAccessToken_cachePath, Hcp.
  unfold readTokenFromDb, bind.
  destruct (ensureConnected o s1) as [[h|e] s2] eqn:Hec;
    apply ensureConnected_result in Hec; destruct Hec as [F Hr];
    destruct F as (_ & _ & _ & Hf & _ & Hq).
  - unfold dbFindOne. rewrite Hf.
    split; [intros Hn; congruence|]. split.
    + intros _ ->. reflexivity.
    + intros [Hn|Hn]; [congruence|]. rewrite Hn. cbn. exact Hq.
  - destruct Hr as [Hn He]. cbn. split; [|split].
    + intros _. split; [destruct He as [->| ->]; auto|exact Hf].
    + intros Hc. congruence.
    + intros _. exact Hq.
Qed.

Lemma store_failure_is_propagated_witness :
  let o := Sample.oracle_store_down 0 None in
  fst (getAccessToken o Sample.acct (Sample.fresh [Sample.doc100])) =
    Throw ConnectionError.
Proof.
  intros o.
  destruct (store_failure_is_propagated o Sample.acct
              (Sample.fresh [Sample.doc100]) (Sample.fresh [Sample.doc100]) eq_refl)
    as (H & _ & _).
  destruct (H eq_refl) as [[H1|H1] _]; [discriminate H1|exact H1].
Defined.

(** X15. A fresh cache entry whose token is more than 60 s from expiry is
    served from memory: the call returns its access token after two clock
    reads; it makes no POST, no import, no connection, no read and no
    write, and leaves cache, client and store as they were. *)
Theorem fresh_valid_entry_is_served_without_io
        (o : Oracle) (cid : string) (s : State) (c : CachedToken) :
  cache s = Some c ->
  clock o (nClock s) - fetchedAt c < 20 * 60 * 1000 ->
  clock o (S (nClock s)) < expiresAt c - 60000 ->
  let s' := snd (getAccessToken o cid s) in
  fst (getAccessToken o cid s) = Ok (accessToken c) /\
  cache s' = cache s /\ tokens s' = tokens s /\ mongoClient s' = mongoClient s /\
  nPost s' = nPost s /\ nFind s' = nFind s /\ nUpdate s' = nUpdate s /\
  nConnect s' = nConnect s /\ nImport s' = nImport s /\
  nClock s' = S (S (nClock s)).
Proof.
  intros Hc Hf Hv s'. subst s'.
  apply isFresh_iff in Hf.
  assert (Hv' : cacheNeedsRefresh (clock o (S (nClock s))) (expiresAt c) = false).
  { destruct (cacheNeedsRefresh _ _) eqn:E; [|reflexivity].
    apply cacheNeedsRefresh_iff in E. lia. }
  rewrite getAccessToken_cachePath, (cachePath_hit o cid s c Hc Hf Hv').
  cbn. repeat split.
Qed.

Lemma fresh_valid_entry_is_served_without_io_witness :
  let c := mkCached (Some "tok") (Some "rt") (300000 + 7200000) 0 in
  fst (getAccessToken (Sample.oracle 300000 None) Sample.acct (Sample.cached c [])) =
    Ok (Some "tok").
Proof.
  intros c.
  apply (fresh_valid_entry_is_served_without_io
           (Sample.oracle 300000 None) Sample.acct (Sample.cached c []) c);
    reflexivity.
Defined.

(** ** [close] *)

(** X16. [close] is safe and idempotent: without a stored client it does
    nothing, whatever the driver would answer; with one, a resolved driver
    close clears the client and changes nothing else, and a second [close]
    is then a no-op; a rejected driver close is rethrown and the client
    stays. *)
Theorem close_is_safe_and_idempotent (s : State) (r : Result unit) :
  (mongoClient s = None -> close r s = (Ok tt, s)) /\
  (forall h, mongoClient s = Some h ->
             close (Ok tt) s = (Ok tt, set_mongoClient None s) /\
             close r (snd (close (Ok tt) s)) = (Ok tt, snd (close (Ok tt) s))) /\
  (forall h e, mongoClient s = Some h -> close (Throw e) s = (Throw e, s)).
Proof.
  unfold close, driverClose, bind, gets, modify, ret.
  split; [|split].
  - intros ->. reflexivity.
  - intros h ->. split; reflexivity.
  - intros h e ->. reflexivity.
Qed.

Lemma close_is_safe_and_idempotent_witness :
  let s := snd (ensureConnected (Sample.oracle 0 None) (Sample.fresh [])) in
  close (Ok tt) (snd (close (Ok tt) s)) = (Ok tt, snd (close (Ok tt) s)).
Proof.
  intros s.
  destruct (close_is_safe_and_idempotent s (Ok tt)) as (_ & H & _).
  destruct (H 0%nat eq_refl) as [_ H2]. exact H2.
Defined.

(** X17. [close] touches neither the cache nor the store; a cache hit
    after it is served as before and does not reconnect. *)
Theorem cache_survives_close
        (o : Oracle) (cid : string) (s : State) (r : Result unit) (c : CachedToken) :
  cache s = Some c ->
  isFresh (clock o (nClock s)) c = true ->
  cacheNeedsRefresh (clock o (S (nClock s))) (expiresAt c) = false ->
  let s1 := snd (close r s) in
  cache s1 = Some c /\ tokens s1 = tokens s /\
  getAccessToken o cid s1 = (Ok (accessToken c), tick_clock (tick_clock s1)) /\
  nConnect (snd (getAccessToken o cid s1)) = nConnect s.
Proof.
  intros Hc Hf Hv s1.
  assert (E : cache s1 = cache s /\ tokens s1 = tokens s /\
              nClock s1 = nClock s /\ nConnect s1 = nConnect s).
  { unfold s1, close, driverClose, bind, gets, modify, ret.
    destruct (mongoClient s); [destruct r|]; cbn; auto. }
  destruct E as (E1 & E2 & E3 & E4).
  assert (Hc1 : cache s1 = Some c) by congruence.
  assert (Hg : getAccessToken o cid s1 =
               (Ok (accessToken c), tick_clock (tick_clock s1))).
  { rewrite getAccessToken_cachePath.
    rewrite (cachePath_hit o cid s1 c Hc1); [reflexivity| |]; rewrite E3; assumption. }
  repeat split; [exact Hc1|exact E2|exact Hg|].
  rewrite Hg. cbn. exact E4.
Qed.

Lemma cache_survives_close_witness :
  let o := Sample.oracle 1000 None in
  let s := snd (getAccessToken o Sample.acct (Sample.fresh [Sample.doc100])) in
  fst (getAccessToken o Sample.acct (snd (close (Ok tt) s))) = Ok (Some "tok").
Proof.
  intros o s.
  destruct (cache_survives_close o Sample.acct s (Ok tt)
              (mkCached (Some "tok") (Some "rt") 100000 1000)
              eq_refl eq_refl eq_refl) as (_ & _ & H & _).
  rewrite H. reflexivity.
Defined.

(** X18. After a rejected [connect()] the stored client is returned by
    every later [ensureConnected]; a [close] in between discards it, and
    the next [ensureConnected] makes and connects a new client. *)
Theorem close_allows_a_new_connection (o : Oracle) (s : State) :
  mongoClient s = None ->
  (mongoImported s || importOk o (nImport s)) = true ->
  connectOk o (nConnect s) = false ->
  connectOk o (S (nConnect s)) = true ->
  let s1 := snd (ensureConnected o s) in
  let s2 := snd (close (Ok tt) s1) in
  fst (ensureConnected o s1) = Ok (Some (nConnect s)) /\
  nConnect (snd (ensureConnected o s1)) = S (nConnect s) /\
  fst (ensureConnected o s2) = Ok (Some (S (nConnect s))) /\
  mongoClient (snd (ensureConnected o s2)) = Some (S (nConnect s)) /\
  nConnect (snd (ensureConnected o s2)) = S (S (nConnect s)).
Proof.
  destruct s as [c mc mi tk n1 n2 n3 n4 n5 n6]. cbn.
  intros -> Hi Hc Hc2.
  unfold close, driverClose. js_unfold. cbn.
  destruct mi; cbn in *.
  - rewrite Hc. cbn. rewrite Hc2. cbn. auto.
  - rewrite Hi. cbn. rewrite Hc. cbn. rewrite Hc2. cbn. auto.
Qed.

Lemma close_allows_a_new_connection_witness :
  let o := mkOracle (fun _ => 0) (fun _ => true) (fun n => negb (n =? 0)%nat)
                    (fun _ => true) (fun _ => true) (fun _ _ => None)
                    (fun _ _ => false) in
  let s1 := snd (ensureConnected o (Sample.fresh [])) in
  fst (ensureConnected o s1) = Ok (Some 0%nat) /\
  fst (ensureConnected o (snd (close (Ok tt) s1))) = Ok (Some 1%nat).
Proof.
  intros o s1.
  destruct (close_allows_a_new_connection o (Sample.fresh [])
              eq_refl eq_refl eq_refl eq_refl) as (H1 & _ & H3 & _).
  split; [exact H1|exact H3].
Defined.

(** ** The factory *)

Lemma truthy_str_false_iff (v : option string) :
  truthy_str v = false <-> v = None \/ v = Some "".
Proof.
  destruct v as [x|]; cbn.
  - rewrite negb_false_iff, String.eqb_eq. split.
    + intros ->. auto.
    + intros [H|H]; [discriminate|]. injection H as ->. reflexivity.
  - split; auto.
Qed.

Lemma truthy_str_true_iff (v : option string) :
  truthy_str v = true <-> exists x, v = Some x /\ x <> "".
Proof.
  destruct v as [x|]; cbn.
  - rewrite negb_true_iff, String.eqb_neq. split.
    + intros H. exists x. auto.
    + intros (y & H & Hn). injection H as ->. exact Hn.
  - split; [discriminate|]. intros (y & H & _). discriminate.
Qed.

(** X19. The factory makes no manager exactly when the store URI, the
    client id or the client secret is unset or empty; the company id never
    decides it.  When it makes one, the options carry the three values and,
    as company id, the variable's value, or the built-in default when that
    is unset or empty. *)
Theorem factory_needs_three_settings (env : Factory.Env) :
  let unset v := v = None \/ v = Some "" in
  (Factory.createTokenManagerIfConfigured env = None <->
   unset (Factory.MONGO_URI env) \/ unset (Factory.GHL_APP_CLIENT_ID env) \/
   unset (Factory.GHL_APP_CLIENT_SECRET env)) /\
  (forall opts,
      Factory.createTokenManagerIfConfigured env = Some opts ->
      Factory.MONGO_URI env = Some (Factory.mongoUri opts) /\
      Factory.GHL_APP_CLIENT_ID env = Some (Factory.clientId opts) /\
      Factory.GHL_APP_CLIENT_SECRET env = Some (Factory.clientSecret opts) /\
      (unset (Factory.GHL_COMPANY_ID env) ->
       Factory.companyId opts = "8igXD6XA1bRExj2oUicW") /\
      (forall x, Factory.GHL_COMPANY_ID env = Some x -> x <> "" ->
                 Factory.companyId opts = x)).
Proof.
  intros unset. unfold Factory.createTokenManagerIfConfigured.
  destruct (truthy_str (Factory.MONGO_URI env)) eqn:E1;
    destruct (truthy_str (Factory.GHL_APP_CLIENT_ID env)) eqn:E2;
    destruct (truthy_str (Factory.GHL_APP_CLIENT_SECRET env)) eqn:E3; cbn;
    try (split; [split; [intros _|reflexivity]|intros opts H; discriminate H];
         unfold unset; rewrite <- !truthy_str_false_iff; auto).
  split.
  - split; [discriminate|]. unfold unset. rewrite <- !truthy_str_false_iff.
    intros [H|[H|H]]; congruence.
  - intros opts H. injection H as <-. cbn.
    apply truthy_str_true_iff in E1, E2, E3.
    destruct E1 as (u & -> & _), E2 as (i & -> & _), E3 as (k & -> & _). cbn.
    repeat split.
    + unfold unset. rewrite <- truthy_str_false_iff. unfold or_str.
      intros ->. reflexivity.
    + intros x -> Hx. unfold or_str. cbn.
      apply String.eqb_neq in Hx. rewrite Hx. reflexivity.
Qed.

Lemma factory_needs_three_settings_witness :
  Factory.createTokenManagerIfConfigured
    (Factory.mkEnv (Some "mongodb://h/db") (Some "id") (Some "") (Some "X")) = None /\
  option_map Factory.companyId
    (Factory.createTokenManagerIfConfigured
       (Factory.mkEnv (Some "mongodb://h/db") (Some "id") (Some "secret") (Some ""))) =
  Some "8igXD6XA1bRExj2oUicW".
Proof.
  pose (env1 := Factory.mkEnv (Some "mongodb://h/db") (Some "id") (Some "") (Some "X")).
  pose (env2 := Factory.mkEnv (Some "mongodb://h/db") (Some "id") (Some "secret") (Some "")).
  split.
  - apply (proj1 (factory_needs_three_settings env1)). cbn. auto.
  - pose proof (proj2 (factory_needs_three_settings env2)) as H.
    fold env2.
    destruct (Factory.createTokenManagerIfConfigured env2) as [opts|] eqn:E;
      [|discriminate E].
    destruct (H opts eq_refl) as (_ & _ & _ & Hd & _).
    cbn. rewrite Hd; [reflexivity|]. cbn. auto.
Defined.

(** X20. A manager made by the factory and just constructed has nothing
    cached: its first call reads the clock not at all and is
    [readTokenFromDb] for the company id the factory chose, so without a record
    for that id it returns no token. *)
Theorem configured_manager_reads_the_store_first
        (o : Oracle) (env : Factory.Env) (opts : Factory.Opts) (w : State) :
  Factory.createTokenManagerIfConfigured env = Some opts ->
  let cid := Factory.companyId opts in
  getAccessToken o cid (construct w) = readTokenFromDb o cid (construct w) /\
  (findOne cid (tokens w) = None ->
   exists e, fst (getAccessToken o cid (construct w)) = Throw e) /\
  (Factory.GHL_COMPANY_ID env = None -> cid = Factory.DEFAULT_COMPANY_ID).
Proof.
  intros H cid.
  assert (Hg : getAccessToken o cid (construct w) =
               readTokenFromDb o cid (construct w)) by reflexivity.
  repeat split.
  - intros Hn. rewrite Hg.
    destruct (readTokenFromDb_absent o cid (construct w) Hn) as [He _]. exact He.
  - intros Hc. unfold cid, Factory.createTokenManagerIfConfigured in *.
    destruct (_ || _); [discriminate|]. injection H as <-. cbn.
    rewrite Hc. reflexivity.
Qed.

Lemma configured_manager_reads_the_store_first_witness :
  let env := Factory.mkEnv (Some "mongodb://h/db") (Some "id") (Some "secret") None in
  exists e, fst (getAccessToken (Sample.oracle 0 None) "8igXD6XA1bRExj2oUicW"
                                (construct (Sample.fresh [Sample.doc100]))) = Throw e.
Proof.
  intros env.
  destruct (configured_manager_reads_the_store_first
              (Sample.oracle 0 None) env
              (Factory.mkOpts "mongodb://h/db" "8igXD6XA1bRExj2oUicW" "id" "secret")
              (Sample.fresh [Sample.doc100]) eq_refl) as (_ & H & _).
  apply H. reflexivity.
Defined.

(** ** More on the single-flight guard *)

Module SingleFlightMore.
Import SingleFlight.
Import SingleFlightFacts.
Local Close Scope string_scope.
Local Close Scope Z_scope.

(** X21. A failed import leaves the manager as if never connected: when
    the owner has resumed, the caller is rejected with [DriverMissing], no
    client is stored, the marker is clear, and the next call starts a new
    attempt of its own. *)
Theorem failed_import_allows_a_fresh_attempt (s : Conn) (p c : nat) :
  Inv s ->
  nth_error (promises s) p = Some (AwaitImport true) ->
  nth_error (callers s) c = Some (Owner p) ->
  let s1 := run [EvImport p false; EvResume c] s in
  let s2 := step s1 EvCall in
  outcome s1 c = Some (Rejected DriverMissing) /\
  mongoClient s1 = None /\ connecting s1 = None /\ connects s1 = connects s /\
  connecting s2 = Some (List.length (promises s1)) /\
  nth_error (callers s2) (List.length (callers s1)) =
    Some (Owner (List.length (promises s1))) /\
  nth_error (promises s2) (List.length (promises s1)) =
    Some (AwaitImport (negb (mongoImported s1))).
Proof.
  intros I Hp Hc.
  pose proof (inv_import s I p true Hp) as H0.
  assert (Hm : mongoClient s = None).
  { rewrite (inv_client s I), H0. reflexivity. }
  pose proof (nth_lt _ _ _ Hp) as Lp. pose proof (nth_lt _ _ _ Hc) as Lc.
  unfold run. cbn [fold_left step].
  unfold importDone. rewrite Hp. cbn [andb negb].
  unfold resume, set_promise. cbn. rewrite Hc, (nth_upd_same _ _ _ Lp).
  cbn. unfold outcome, call. cbn. rewrite Hm. cbn.
  rewrite (nth_upd_same _ _ _ Lc), !nth_snoc_last, !length_upd.
  repeat split; auto.
Qed.

Lemma failed_import_allows_a_fresh_attempt_witness :
  let s := run [EvCall] (init false) in
  let s1 := run [EvImport 0 false; EvResume 0] s in
  outcome s1 0 = Some (Rejected DriverMissing) /\
  connecting (step s1 EvCall) = Some 1.
Proof.
  intros s s1.
  assert (I : Inv s) by apply run_inv, init_inv.
  destruct (failed_import_allows_a_fresh_attempt s 0 0 I eq_refl eq_refl)
    as (H1 & _ & _ & _ & H5 & _).
  split; [exact H1|exact H5].
Defined.

Lemma step_promise_done s ev q z :
  nth_error (promises s) q = Some (Done z) ->
  nth_error (promises (step s ev)) q = Some (Done z).
Proof.
  intros H. pose proof (nth_lt _ _ _ H) as L.
  assert (U : forall p y, nth_error (promises s) p <> Some (Done z) ->
                          nth_error (upd p y (promises s)) q = Some (Done z)).
  { intros p y Hp. rewrite nth_upd_other; [exact H|]. intros ->. contradiction. }
  destruct ev as [|p ok|p ok|c0]; cbn [step].
  - unfold call. destruct (mongoClient s); [|destruct (connecting s)]; cbn;
      try exact H.
    rewrite nth_error_app1 by exact L. exact H.
  - unfold importDone.
    destruct (nth_error (promises s) p) as [[imp| |r0]|] eqn:E; try exact H.
    destruct (imp && negb ok); cbn; apply U; rewrite E; discriminate.
  - unfold connectDone.
    destruct (nth_error (promises s) p) as [[imp| |r0]|] eqn:E; try exact H.
    destruct ok; cbn; apply U; rewrite E; discriminate.
  - unfold resume.
    destruct (nth_error (callers s) c0) as [[h|p|p|r0]|]; try exact H.
    destruct (nth_error (promises s) p) as [[imp| |r1]|]; exact H.
Qed.

Lemma step_caller_kept s ev c x :
  nth_error (callers s) c = Some x -> suspended x = false ->
  nth_error (callers (step s ev)) c = Some x.
Proof.
  intros H Hs. pose proof (nth_lt _ _ _ H) as L.
  destruct ev as [|p ok|p ok|c0]; cbn [step].
  - unfold call. destruct (mongoClient s); [|destruct (connecting s)]; cbn;
      rewrite nth_error_app1 by exact L; exact H.
  - unfold importDone.
    destruct (nth_error (promises s) p) as [[imp| |r0]|]; try exact H.
    destruct (imp && negb ok); exact H.
  - unfold connectDone.
    destruct (nth_error (promises s) p) as [[imp| |r0]|]; try exact H.
    destruct ok; exact H.
  - unfold resume.
    destruct (nth_error (callers s) c0) as [[h|p|p|r0]|] eqn:E; try exact H.
    destruct (nth_error (promises s) p) as [[imp| |r1]|]; try exact H.
    cbn. rewrite nth_upd_other; [exact H|].
    intros ->. rewrite E in H. injection H as <-. discriminate Hs.
Qed.

Lemma step_outcome_stable s ev c r :
  outcome s c = Some r -> outcome (step s ev) c = Some r.
Proof.
  unfold outcome.
  destruct (nth_error (callers s) c) as [x|] eqn:Hx; [|discriminate].
  destruct x as [h|p|p|r0]; try discriminate;
    rewrite (step_caller_kept s ev c _ Hx eq_refl); try (intros H; exact H).
  destruct (nth_error (promises s) p) as [[imp| |r0]|] eqn:E; try discriminate.
  rewrite (step_promise_done s ev p r0 E). intros H; exact H.
Qed.

(** X22. A caller's result, once settled, is final: no later call or
    completion changes it. *)
Theorem settled_outcome_is_final (tr : list Event) (s : Conn) (c : nat) (r : Settled) :
  outcome s c = Some r -> outcome (run tr s) c = Some r.
Proof.
  unfold run. revert s. induction tr as [|ev tr IH]; cbn; intros s H; [exact H|].
  apply IH, step_outcome_stable, H.
Qed.

Lemma settled_outcome_is_final_witness :
  let s := run [EvCall; EvImport 0 true; EvCall] (init false) in
  outcome (run [EvConnect 0 false; EvResume 0; EvCall] s) 1 =
    Some (Fulfilled (Some 0)).
Proof.
  intros s.
  apply (settled_outcome_is_final [EvConnect 0 false; EvResume 0; EvCall] s 1).
  reflexivity.
Defined.

Lemma ensureConnected_alone_witness :
  let o := Sample.oracle 0 None in
  let s' := run [EvCall; EvImport 0 true; EvConnect 0 true; EvResume 0] (init false) in
  view s' = connView (snd (ensureConnected o (Sample.fresh []))) /\
  outcome s' 0 = Some (settled_of (fst (ensureConnected o (Sample.fresh [])))).
Proof.
  intros o s'.
  destruct (ensureConnected_alone o (Sample.fresh []) (init false) eq_refl eq_refl)
    as (H1 & _ & H3).
  split; [exact H1|exact H3].
Defined.

End SingleFlightMore.

(** ** [close] between the segments of [ensureConnected] *)

Module ClosingFacts.
Import SingleFlight.
Import SingleFlightFacts.
Import Closing.
Local Close Scope string_scope.
Local Close Scope Z_scope.

(** Without [close] events the machine is that of [SingleFlight]. *)
Lemma crun_without_close tr s k :
  crun (map Ev tr) (mkCConn s k) = mkCConn (run tr s) k.
Proof.
  unfold crun, run. revert s. induction tr as [|e tr IH]; intros s; cbn; [reflexivity|].
  apply IH.
Qed.

(** X23. A [close] that completes while [connect()] is in flight empties
    [this.mongoClient]; when [connect()] then resolves, line 101 returns that
    field, so the attempt is fulfilled with null: that is what its owner,
    once resumed, and every caller that was handed the promise receive,
    and no client is stored. *)
Theorem close_during_connect_yields_null (s : CConn) (p c : nat) (h : Handle) :
  nth_error (promises (conn s)) p = Some AwaitConnect ->
  mongoClient (conn s) = Some h ->
  let s' := crun [EvCloseCall; EvCloseDone true; Ev (EvConnect p true)] s in
  nth_error (promises (conn s')) p = Some (Done (Fulfilled None)) /\
  mongoClient (conn s') = None /\
  (nth_error (callers (conn s)) c = Some (Following p) ->
   outcome (conn s') c = Some (Fulfilled None)) /\
  (nth_error (callers (conn s)) c = Some (Owner p) ->
   outcome (conn (cstep s' (Ev (EvResume c)))) c = Some (Fulfilled None)).
Proof.
  intros Hp Hm. pose proof (nth_lt _ _ _ Hp) as Lp.
  unfold crun. cbn [fold_left cstep]. unfold closeCall. rewrite Hm.
  unfold closeDone. cbn. unfold connectDone. cbn. rewrite Hp. cbn.
  rewrite (nth_upd_same _ _ _ Lp).
  repeat split.
  - intros Hc. unfold outcome. cbn. rewrite Hc, (nth_upd_same _ _ _ Lp). reflexivity.
  - intros Hc. pose proof (nth_lt _ _ _ Hc) as Lc.
    unfold resume, outcome. cbn. rewrite Hc, (nth_upd_same _ _ _ Lp). cbn.
    rewrite (nth_upd_same _ _ _ Lc). reflexivity.
Qed.

Lemma close_during_connect_yields_null_witness :
  let s := crun [Ev EvCall; Ev (EvImport 0 true)] (cinit false) in
  let s' := crun [EvCloseCall; EvCloseDone true; Ev (EvConnect 0 true)] s in
  outcome (conn (cstep s' (Ev (EvResume 0)))) 0 = Some (Fulfilled None).
Proof.
  intros s s'.
  destruct (close_during_connect_yields_null s 0 0 0 eq_refl eq_refl)
    as (_ & _ & _ & H).
  apply H. reflexivity.
Defined.

(** X24. With [close] the guard no longer bounds the number of
    connections: after a [close] that completes while nothing is in
    flight, the next call starts a new attempt, which makes a new client
    and calls [connect()] once more. *)
Theorem close_lets_the_next_call_connect_again (s : CConn) (h : Handle) (ok : bool) :
  mongoClient (conn s) = Some h ->
  connecting (conn s) = None ->
  let p := List.length (promises (conn s)) in
  let s' := crun [EvCloseCall; EvCloseDone true; Ev EvCall; Ev (EvImport p ok)] s in
  mongoImported (conn s) = true ->
  connects (conn s') = S (connects (conn s)) /\
  mongoClient (conn s') = Some (connects (conn s)) /\
  connecting (conn s') = Some p /\
  nth_error (promises (conn s')) p = Some AwaitConnect.
Proof.
  intros Hm Hc p s' Hi. subst s'.
  unfold crun. cbn [fold_left cstep]. unfold closeCall. rewrite Hm.
  unfold closeDone. cbn. unfold call. cbn. rewrite Hc, Hi. cbn.
  unfold importDone. cbn. subst p. rewrite nth_snoc_last. cbn.
  rewrite upd_snoc, nth_snoc_last. repeat split.
Qed.

Lemma close_lets_the_next_call_connect_again_witness :
  let s := crun [Ev EvCall; Ev (EvImport 0 true); Ev (EvConnect 0 true);
                 Ev (EvResume 0)] (cinit false) in
  connects (conn (crun [EvCloseCall; EvCloseDone true; Ev EvCall;
                        Ev (EvImport 1 true)] s)) = 2.
Proof.
  intros s.
  destruct (close_lets_the_next_call_connect_again s 0 true eq_refl eq_refl eq_refl)
    as (H & _).
  exact H.
Defined.

End ClosingFacts.
